(** * Queued pool of the harmony mempool tracker

    A shallow embedding of [app/data/queued.go]: the hash-keyed store of
    queued transactions, its two views sorted by gas price, the request
    handlers of the owning task ([QueuedPool.Start]), the prune protocol
    and the query methods built on top of the list request.

    Go pointers [*MemPoolTx] are locations of a heap of records: the map
    and both sorted lists hold the same pointer, so a write through one
    of them ([tx.UnstuckAt = ...]) is seen through the others.  The
    collaborators (redis publisher, pending pool) are the logs of what
    was handed to them. *)

From stdpp Require Import gmap strings list fin_maps sorting functions.

Local Open Scope N_scope.

(** ** Data model *)

(** [common.Hash] (32 bytes) and [common.Address] (20 bytes), read as
    numbers; [time.Time] as an instant on the integer line. *)
Module common.
Abbreviation Hash := N (only parsing).
Abbreviation Address := N (only parsing).
End common.

Abbreviation Time := Z (only parsing).
Abbreviation Duration := Z (only parsing).

(** A non-nil [*MemPoolTx]. *)
Abbreviation loc := positive (only parsing).

(** Modelled from the spec: the [MemPoolTx] struct, declared outside
    [queued.go]; the fields are those of the Tx Record of the data model
    (identity, sender and recipient, nonce, gas price, the three
    timestamps and the pool label). *)
Record MemPoolTx := mkTx {
  Hash : common.Hash;
  From : common.Address;
  To : common.Address;
  Nonce : N;
  GasPrice : N;
  QueuedAt : Time;
  PendingAt : Time;
  UnstuckAt : Time;
  Pool : string
}.

(** [tx.QueuedAt = now; tx.Pool = "queued"] *)
Definition markQueued (now : Time) (r : MemPoolTx) : MemPoolTx :=
  {| Hash := Hash r; From := From r; To := To r; Nonce := Nonce r;
     GasPrice := GasPrice r; QueuedAt := now; PendingAt := PendingAt r;
     UnstuckAt := UnstuckAt r; Pool := "queued" |}.

(** [tx.UnstuckAt = now] *)
Definition markUnstuck (now : Time) (r : MemPoolTx) : MemPoolTx :=
  {| Hash := Hash r; From := From r; To := To r; Nonce := Nonce r;
     GasPrice := GasPrice r; QueuedAt := QueuedAt r; PendingAt := PendingAt r;
     UnstuckAt := now; Pool := Pool r |}.

(** The heap of transaction records: what every [*MemPoolTx] points to. *)
Abbreviation Heap := (loc → MemPoolTx) (only parsing).

Definition price (m : Heap) (tx : loc) : N := GasPrice (m tx).
Definition hashOf (m : Heap) (tx : loc) : common.Hash := Hash (m tx).

(** ** Sorted transaction lists *)

Module TxList.

(** The two concrete list types behind the [TxList] interface. *)
Inductive Order := ASC | DESC.

(** Modelled from the spec: [Insert] on the ascending list (the sorted
    tx list is implemented outside [queued.go]).  The transaction is
    placed so that the order is kept, after the entries of equal price. *)
Fixpoint insertAsc (m : Heap) (tx : loc) (txs : list loc) : list loc :=
  match txs with
  | [] => [tx]
  | y :: rest =>
      if price m y <=? price m tx then y :: insertAsc m tx rest
      else tx :: y :: rest
  end.

(** Modelled from the spec: [Insert] on the descending list (outside
    [queued.go]).  The transaction is placed so that the order is kept,
    before the entries of equal price. *)
Fixpoint insertDesc (m : Heap) (tx : loc) (txs : list loc) : list loc :=
  match txs with
  | [] => [tx]
  | y :: rest =>
      if price m tx <? price m y then y :: insertDesc m tx rest
      else tx :: y :: rest
  end.

(** Modelled from the spec: [Insert] (outside [queued.go]) dispatches on
    the concrete type of the list it is given. *)
Definition Insert (o : Order) (m : Heap) (txs : list loc) (tx : loc) : list loc :=
  match o with
  | ASC => insertAsc m tx txs
  | DESC => insertDesc m tx txs
  end.

(** Modelled from the spec: [Remove] of the sorted tx list (outside
    [queued.go]).  The entry is located by object identity and excised;
    a list that does not hold the transaction is returned as it is. *)
Fixpoint Remove (txs : list loc) (tx : loc) : list loc :=
  match txs with
  | [] => []
  | y :: rest => if decide (y = tx) then rest else y :: Remove rest tx
  end.

(** Modelled from the spec: [len()] of the [TxList] interface (outside
    [queued.go]), the length of the list. *)
Definition len (txs : list loc) : nat := length txs.

(** Modelled from the spec: [get()] of the [TxList] interface (outside
    [queued.go]), the list as a slice of pointers. *)
Definition get (txs : list loc) : list loc := txs.

End TxList.

(** ** The pool and its collaborators *)

Inductive Topic := EntryTopic | ExitTopic.

(** One call of the redis publisher: the topic and the record that was
    serialised, [None] when the message pointer was nil. *)
Record Publication := mkPub { topic : Topic; payload : option MemPoolTx }.

(** [QueuedPool].  The lock and the request channels are the
    serialisation discipline and have no content of their own; [PubSub]
    and [PendingPool] are modelled by what they received so far. *)
Record QueuedPool := mkPool {
  Transactions : gmap common.Hash loc;
  AscTxsByGasPrice : list loc;
  DescTxsByGasPrice : list loc;
  IsPruning : bool;
  PubSub : list Publication;
  PendingPool : list loc
}.

(** The pool together with the records its pointers lead to. *)
Record World := mkWorld { mem : Heap; pool : QueuedPool }.

(** The pool as it is created: nothing stored, no prune in flight. *)
Definition emptyPool : QueuedPool :=
  {| Transactions := ∅; AscTxsByGasPrice := []; DescTxsByGasPrice := [];
     IsPruning := false; PubSub := []; PendingPool := [] |}.

(** Field updates of the pool, the other fields kept. *)
Definition setStore (q : QueuedPool) (T : gmap common.Hash loc) (asc desc : list loc) : QueuedPool :=
  {| Transactions := T; AscTxsByGasPrice := asc; DescTxsByGasPrice := desc;
     IsPruning := IsPruning q; PubSub := PubSub q; PendingPool := PendingPool q |}.

Definition setPruning (q : QueuedPool) (b : bool) : QueuedPool :=
  {| Transactions := Transactions q; AscTxsByGasPrice := AscTxsByGasPrice q;
     DescTxsByGasPrice := DescTxsByGasPrice q;
     IsPruning := b; PubSub := PubSub q; PendingPool := PendingPool q |}.

Definition publish (q : QueuedPool) (p : Publication) : QueuedPool :=
  {| Transactions := Transactions q; AscTxsByGasPrice := AscTxsByGasPrice q;
     DescTxsByGasPrice := DescTxsByGasPrice q;
     IsPruning := IsPruning q; PubSub := PubSub q ++ [p];
     PendingPool := PendingPool q |}.

Definition promote (q : QueuedPool) (tx : loc) : QueuedPool :=
  {| Transactions := Transactions q; AscTxsByGasPrice := AscTxsByGasPrice q;
     DescTxsByGasPrice := DescTxsByGasPrice q;
     IsPruning := IsPruning q; PubSub := PubSub q;
     PendingPool := PendingPool q ++ [tx] |}.

(** [PublishAdded]: the record behind [msg] goes to the entry topic. *)
Definition PublishAdded (m : Heap) (q : QueuedPool) (msg : option loc) : QueuedPool :=
  publish q {| topic := EntryTopic; payload := m <$> msg |}.

(** [PublishRemoved]: the record behind [msg] goes to the exit topic. *)
Definition PublishRemoved (m : Heap) (q : QueuedPool) (msg : option loc) : QueuedPool :=
  publish q {| topic := ExitTopic; payload := m <$> msg |}.

(** ** The owning task: [QueuedPool.Start] *)

(** The write-locked section of [txRemover]: both lists, then the map. *)
Definition detach (txHash : common.Hash) (tx : loc) (q : QueuedPool) : QueuedPool :=
  setStore q (delete txHash (Transactions q))
    (TxList.Remove (AscTxsByGasPrice q) tx)
    (TxList.Remove (DescTxsByGasPrice q) tx).

(** [tx.UnstuckAt = time.Now().UTC()], through the pointer. *)
Definition stampUnstuck (now : Time) (tx : loc) (m : Heap) : Heap :=
  alter (markUnstuck now) tx m.

(** The closure [txRemover]: look the hash up, stamp the record, detach
    it under the write lock, publish [q.Transactions[txHash]] as it is
    read after the deletion, and return the pointer found at the start. *)
Definition txRemover (now : Time) (txHash : common.Hash) (w : World) : World * option loc :=
  match Transactions (pool w) !! txHash with
  | None => (w, None)
  | Some tx =>
      let m1 := stampUnstuck now tx (mem w) in
      let q1 := detach txHash tx (pool w) in
      let q2 := PublishRemoved m1 q1 (Transactions q1 !! txHash) in
      ({| mem := m1; pool := q2 |}, Some tx)
  end.

(** The write-locked section of the add request. *)
Definition attach (m : Heap) (tx : loc) (q : QueuedPool) : QueuedPool :=
  setStore q (<[hashOf m tx := tx]> (Transactions q))
    (TxList.Insert TxList.ASC m (AscTxsByGasPrice q) tx)
    (TxList.Insert TxList.DESC m (DescTxsByGasPrice q) tx).

(** [case req := <-q.AddTxChan]: a hash already stored answers false;
    else the record is stamped through the pointer, attached under the
    write lock and published.  The request carries a non-nil pointer. *)
Definition handleAdd (now : Time) (tx : loc) (w : World) : World * bool :=
  match Transactions (pool w) !! hashOf (mem w) tx with
  | Some _ => (w, false)
  | None =>
      let m1 := alter (markQueued now) tx (mem w) in
      let q1 := attach m1 tx (pool w) in
      let q2 := PublishAdded m1 q1 (Some tx) in
      ({| mem := m1; pool := q2 |}, true)
  end.

(** Reply codes of the prune request. *)
Inductive PruneReply := SCHEDULED | PRUNING | EMPTY.

(** [case req := <-q.RemoveTxsChan]: the two guards and the latch.  The
    boolean tells whether the prune goroutine was started. *)
Definition handlePrune (w : World) : World * PruneReply * bool :=
  if IsPruning (pool w) then (w, PRUNING, false)
  else if Nat.eqb (TxList.len (DescTxsByGasPrice (pool w))) 0 then (w, EMPTY, false)
  else ({| mem := mem w; pool := setPruning (pool w) true |}, SCHEDULED, true).

(** [case req := <-q.TxExistsChan] *)
Definition handleExists (h : common.Hash) (w : World) : bool :=
  bool_decide (is_Some (Transactions (pool w) !! h)).

(** [case req := <-q.GetTxChan] *)
Definition handleGet (h : common.Hash) (w : World) : option loc :=
  match Transactions (pool w) !! h with
  | Some tx => Some tx
  | None => None
  end.

(** [case req := <-q.CountTxsChan] *)
Definition handleCount (w : World) : N :=
  N.of_nat (TxList.len (AscTxsByGasPrice (pool w))).

(** [case req := <-q.ListTxsChan]: nil for an empty list, else a copy of
    its elements. *)
Definition handleList (o : TxList.Order) (w : World) : option (list loc) :=
  match o with
  | TxList.ASC =>
      if Nat.eqb (TxList.len (AscTxsByGasPrice (pool w))) 0 then None
      else Some (TxList.get (AscTxsByGasPrice (pool w)))
  | TxList.DESC =>
      if Nat.eqb (TxList.len (DescTxsByGasPrice (pool w))) 0 then None
      else Some (TxList.get (DescTxsByGasPrice (pool w)))
  end.

(** ** Requests and replies of the owning task *)

(** The upstream view handed to a prune: sender, then nonce (as a
    string), then the record. *)
Abbreviation Upstream := (gmap string (gmap string loc)) (only parsing).

Inductive Request :=
| AddRequest (tx : loc)
| RemovedUnstuckTx (h : common.Hash)
| RemoveTxsFromQueuedPool (pending queued : Upstream)
| ExistsRequest (h : common.Hash)
| GetRequest (h : common.Hash)
| CountRequest
| ListRequest (o : TxList.Order).

Inductive Reply :=
| RBool (b : bool)
| RTx (tx : option loc)
| RPrune (r : PruneReply)
| RCount (n : N)
| RList (txs : option (list loc)).

(** One turn of the [select] loop of [Start]; [now] is what the clock
    shows while the request is served. *)
Definition serve (now : Time) (req : Request) (w : World) : World * Reply :=
  match req with
  | AddRequest tx => let '(w', ok) := handleAdd now tx w in (w', RBool ok)
  | RemovedUnstuckTx h => let '(w', tx) := txRemover now h w in (w', RTx tx)
  | RemoveTxsFromQueuedPool _ _ => let '(w', r, _) := handlePrune w in (w', RPrune r)
  | ExistsRequest h => (w, RBool (handleExists h w))
  | GetRequest h => (w, RTx (handleGet h w))
  | CountRequest => (w, RCount (handleCount w))
  | ListRequest o => (w, RList (handleList o w))
  end.

(** ** The methods callers use: one request, one reply *)

(** [Add], [Remove], [RemoveUnstuck], [Get], [Exists], [Count],
    [AscListTxs], [DescListTxs]: each sends its request and returns the
    reply of the owning task. *)
Definition Add (now : Time) (tx : loc) (w : World) : World * bool := handleAdd now tx w.
Definition Remove (now : Time) (txHash : common.Hash) (w : World) : World * option loc :=
  txRemover now txHash w.
Definition RemoveUnstuck (w : World) : World * PruneReply := fst (handlePrune w).
Definition Get (w : World) (hash : common.Hash) : option loc := handleGet hash w.
Definition Exists (w : World) (hash : common.Hash) : bool := handleExists hash w.
Definition Count (w : World) : N := handleCount w.
Definition AscListTxs (w : World) : option (list loc) := handleList TxList.ASC w.
Definition DescListTxs (w : World) : option (list loc) := handleList TxList.DESC w.

(** What a call can end in: a value, a runtime panic, or a goroutine
    that waits on its channel for ever. *)
Inductive Outcome (A : Type) :=
| Returns (a : A)
| Panics
| Blocks.
Arguments Returns {A} a.
Arguments Panics {A}.
Arguments Blocks {A}.

(** The elements a slice value holds; a nil slice holds none. *)
Definition elems (s : option (list loc)) : list loc := default [] s.

(** [s[:x]] on a slice whose capacity is its length (a nil slice, or one
    made by [make([]*MemPoolTx, n)]): panics when [x] exceeds it. *)
Definition sliceTo (s : option (list loc)) (x : N) : Outcome (option (list loc)) :=
  match s with
  | None => if x =? 0 then Returns None else Panics
  | Some l =>
      if x <=? N.of_nat (length l) then Returns (Some (take (N.to_nat x) l))
      else Panics
  end.

(** [q.DescListTxs()[:x]] *)
Definition TopXWithHighGasPrice (w : World) (x : N) : Outcome (option (list loc)) :=
  sliceTo (DescListTxs w) x.

(** [q.AscListTxs()[:x]] *)
Definition TopXWithLowGasPrice (w : World) (x : N) : Outcome (option (list loc)) :=
  sliceTo (AscListTxs w) x.

(** Modelled from the spec: [MemPoolTx.IsDuplicateOf] (declared outside
    [queued.go]): duplicate-of is same [From] and same [Nonce]. *)
Definition IsDuplicateOf (r other : MemPoolTx) : bool :=
  (From r =? From other) && (Nonce r =? Nonce other).

(** Modelled from the spec: [MemPoolTx.IsSentFrom] (declared outside
    [queued.go]): address equality on the sender. *)
Definition IsSentFrom (address : common.Address) (r : MemPoolTx) : bool :=
  From r =? address.

(** Modelled from the spec: [MemPoolTx.IsSentTo] (declared outside
    [queued.go]): address equality on the recipient. *)
Definition IsSentTo (address : common.Address) (r : MemPoolTx) : bool :=
  To r =? address.

(** Modelled from the spec: [MemPoolTx.IsQueuedForGTE] (declared outside
    [queued.go]): [now - QueuedAt] is at least the duration. *)
Definition IsQueuedForGTE (now : Time) (x : Duration) (r : MemPoolTx) : bool :=
  (x <=? now - QueuedAt r)%Z.

(** Modelled from the spec: [MemPoolTx.IsQueuedForLTE] (declared outside
    [queued.go]): [now - QueuedAt] is at most the duration. *)
Definition IsQueuedForLTE (now : Time) (x : Duration) (r : MemPoolTx) : bool :=
  (now - QueuedAt r <=? x)%Z.

(** The states a prune worker reports. *)
Inductive TxState := STUCK | UNSTUCK.

(** [TxStatus{Hash, Status}], the message on [commChan]; its hash field
    is [StatusHash] here, [Hash] being the field of the record. *)
Record TxStatus := mkStatus { StatusHash : common.Hash; Status : TxState }.

(** Modelled from the spec: [IsPresentInCurrentPool] (declared outside
    [queued.go]): the hash is present in the upstream view when one of
    its records carries it. *)
Definition IsPresentInCurrentPool (m : Heap) (txs : Upstream) (txHash : common.Hash) : bool :=
  existsb (λ inner : gmap string loc,
             existsb (λ tx, hashOf m tx =? txHash) (map_to_list inner).*2)
          (map_to_list txs).*2.

(** Modelled from the spec: [MemPoolTx.IsUnstuck] (declared outside
    [queued.go]): the sender's current account nonce is asked from the
    RPC adapter, [None] being a failed call; the transaction is unstuck
    when its nonce equals the account's. *)
Definition IsUnstuck (rpc : common.Address → option N) (r : MemPoolTx) : option bool :=
  (λ accountNonce, Nonce r =? accountNonce) <$> rpc (From r).

(** The job a prune submits to the worker pool for one snapshotted
    transaction, with what it sends on [commChan]. *)
Definition classify (m : Heap) (rpc : common.Address → option N)
    (pending queued : Upstream) (tx : loc) : TxStatus :=
  if IsPresentInCurrentPool m queued (hashOf m tx)
  then {| StatusHash := hashOf m tx; Status := STUCK |}
  else if IsPresentInCurrentPool m pending (hashOf m tx)
  then {| StatusHash := hashOf m tx; Status := UNSTUCK |}
  else match IsUnstuck rpc (m tx) with
       | None => {| StatusHash := hashOf m tx; Status := STUCK |}
       | Some yes =>
           if yes then {| StatusHash := hashOf m tx; Status := UNSTUCK |}
           else {| StatusHash := hashOf m tx; Status := STUCK |}
       end.

(** [q.PendingPool.Add(ctx, tx)]: the record is handed over. *)
Definition handOver (w : World) (tx : loc) : World :=
  {| mem := mem w; pool := promote (pool w) tx |}.

(** The body of [for v := range commChan] for one message: the world
    after it, the counter, and whether the loop breaks.  A removal that
    finds nothing [continue]s past the counter. *)
Definition collectOne (now : Time) (v : TxStatus) (received txCount : N) (w : World)
    : World * N * bool :=
  match Status v with
  | UNSTUCK =>
      let '(w1, tx) := txRemover now (StatusHash v) w in
      match tx with
      | None => (w1, received, false)
      | Some tx => (handOver w1 tx, received + 1, txCount <=? received + 1)
      end
  | STUCK => (w, received + 1, txCount <=? received + 1)
  end.

(** The deferred [q.IsPruning = false]. *)
Definition releaseLatch (w : World) : World :=
  {| mem := mem w; pool := setPruning (pool w) false |}.

(** The receive loop over the messages in the order they arrive;
    [clock k] is the time at the k-th message.  With no message left and
    the count not reached the goroutine waits for ever ([None]). *)
Fixpoint collect (clock : nat → Time) (k : nat) (commChan : list TxStatus)
    (received txCount : N) (w : World) : option World :=
  match commChan with
  | [] => None
  | v :: rest =>
      let '(w1, received1, done) := collectOne (clock k) v received txCount w in
      if done then Some w1 else collect clock (S k) rest received1 txCount w1
  end.

(** The receive loop of the filtered queries: non-nil messages are
    appended to the result until [mustReceive] messages were counted.
    The counters are [uint64] in the source and never exceed the length
    of a slice, so they are numbers without wrap-around here. *)
Fixpoint drain (commChan : list (option loc)) (received mustReceive : N)
    (result : list loc) : option (list loc) :=
  match commChan with
  | [] => None
  | v :: rest =>
      let result1 := match v with Some tx => result ++ [tx] | None => result end in
      if mustReceive <=? received + 1 then Some result1
      else drain rest (received + 1) mustReceive result1
  end.

Section Scheduler.

(** The worker pool: the messages the submitted jobs send arrive on the
    buffered channel in an order of the scheduler's choosing. *)
Variable deliver : ∀ A : Type, list A → list A.

(** The fan-out shared by the filtered queries: one job per
    transaction, sending the transaction when the predicate holds and
    nil otherwise, then the receive loop. *)
Definition fanOut (keep : MemPoolTx → bool) (m : Heap) (txs : list loc)
    : Outcome (option (list loc)) :=
  let txCount := N.of_nat (length txs) in
  let sent := (λ tx, if keep (m tx) then Some tx else None) <$> txs in
  match drain (deliver _ sent) 0 txCount [] with
  | Some result => Returns (Some result)
  | None => Blocks
  end.

(** [DuplicateTxs]: nil when the hash is not stored or the pool is
    empty; else the listed transactions for which
    [tx.IsDuplicateOf(targetTx)] holds. *)
Definition DuplicateTxs (w : World) (hash : common.Hash) : Outcome (option (list loc)) :=
  match Get w hash with
  | None => Returns None
  | Some targetTx =>
      match DescListTxs w with
      | None => Returns None
      | Some txs => fanOut (λ r, IsDuplicateOf r (mem w targetTx)) (mem w) txs
      end
  end.

(** [SentFrom], [SentTo], [OlderThanX], [FresherThanX]: nil when the
    list reply is nil, else the fan-out with the predicate. *)
Definition SentFrom (w : World) (address : common.Address) : Outcome (option (list loc)) :=
  match DescListTxs w with
  | None => Returns None
  | Some txs => fanOut (IsSentFrom address) (mem w) txs
  end.

Definition SentTo (w : World) (address : common.Address) : Outcome (option (list loc)) :=
  match DescListTxs w with
  | None => Returns None
  | Some txs => fanOut (IsSentTo address) (mem w) txs
  end.

Definition OlderThanX (now : Time) (w : World) (x : Duration)
    : Outcome (option (list loc)) :=
  match DescListTxs w with
  | None => Returns None
  | Some txs => fanOut (IsQueuedForGTE now x) (mem w) txs
  end.

Definition FresherThanX (now : Time) (w : World) (x : Duration)
    : Outcome (option (list loc)) :=
  match DescListTxs w with
  | None => Returns None
  | Some txs => fanOut (IsQueuedForLTE now x) (mem w) txs
  end.

(** The prune goroutine run on its own: snapshot of the descending
    list, one classification job per entry, the receive loop, and the
    deferred release of the latch once the loop is left. *)
Definition pruneBody (clock : nat → Time) (rpc : common.Address → option N)
    (pending queued : Upstream) (w : World) : option World :=
  let txs := TxList.get (DescTxsByGasPrice (pool w)) in
  let txCount := N.of_nat (length txs) in
  let sent := classify (mem w) rpc pending queued <$> txs in
  releaseLatch <$> collect clock 0 (deliver _ sent) 0 txCount w.

End Scheduler.

(** ** The pool together with its prune goroutines *)

(** Where a prune goroutine stands inside [txRemover], between two of
    its lock sections: the record found under the read lock, its
    [UnstuckAt] written, the record detached under the write lock. *)
Inductive RemovalPhase := Found | Stamped | Detached.

(** A prune goroutine: started and not yet at its snapshot, in its
    receive loop with the messages still to come and its counters, or
    inside the [txRemover] it called for the message it received. *)
Inductive PruneJob :=
| Spawned (pending queued : Upstream)
| Collecting (commChan : list TxStatus) (received txCount : N)
| Removing (phase : RemovalPhase) (txHash : common.Hash) (tx : loc)
    (commChan : list TxStatus) (received txCount : N).

Record System := mkSystem { world : World; jobs : list PruneJob }.

(** A new pool over the records already on the heap. *)
Definition initial (m : Heap) : System :=
  {| world := {| mem := m; pool := emptyPool |}; jobs := [] |}.

(** The goroutine a served request starts, if any. *)
Definition spawned (req : Request) (rep : Reply) : list PruneJob :=
  match req, rep with
  | RemoveTxsFromQueuedPool pending queued, RPrune SCHEDULED => [Spawned pending queued]
  | _, _ => []
  end.

(** Writes to the heap from outside the pool (new records, the pending
    pool stamping what it was handed) leave hash and gas price of the
    records the pool holds as they are. *)
Definition keepsIdentity (q : QueuedPool) (m m' : Heap) : Prop :=
  ∀ h tx, Transactions q !! h = Some tx →
    Hash (m' tx) = Hash (m tx) ∧ GasPrice (m' tx) = GasPrice (m tx).

(** What can happen next.  A write from outside the pool; a request
    served by the owning task; a prune goroutine taking its snapshot
    under the read lock; a prune goroutine receiving one of the messages
    still to come.  The goroutine calls [txRemover] itself and holds no
    lock between the lock sections of it, so the owning task serves
    requests in between: a removal by a goroutine is the lookup under the
    read lock ([step_lookup]), the write of [UnstuckAt] ([step_stamp]),
    the write section ([step_detach]), and the read of the map for the
    exit publication, the hand-over to the pending pool and the count
    ([step_publish]).  A message that removes nothing, because it says
    STUCK or because the lookup finds no record, is one step: the loop
    is left, and the latch released, when the count is reached.  The
    owning task serves one request at a time, and a request is taken
    from its receipt to its reply as one step. *)
Inductive step : System → System → Prop :=
| step_outside s m' :
    keepsIdentity (pool (world s)) (mem (world s)) m' →
    step s {| world := {| mem := m'; pool := pool (world s) |}; jobs := jobs s |}
| step_serve s now req :
    step s {| world := (serve now req (world s)).1;
              jobs := jobs s ++ spawned req (serve now req (world s)).2 |}
| step_snapshot s js1 js2 pending queued rpc :
    jobs s = js1 ++ Spawned pending queued :: js2 →
    step s {| world := world s;
              jobs := js1 ++
                Collecting
                  (classify (mem (world s)) rpc pending queued
                     <$> TxList.get (DescTxsByGasPrice (pool (world s))))
                  0 (N.of_nat (length (DescTxsByGasPrice (pool (world s))))) :: js2 |}
| step_receive s js1 js2 c1 v c2 received txCount now :
    jobs s = js1 ++ Collecting (c1 ++ v :: c2) received txCount :: js2 →
    (Status v = UNSTUCK → Transactions (pool (world s)) !! StatusHash v = None) →
    step s
      (let '(w1, received1, done) := collectOne now v received txCount (world s) in
       if done then {| world := releaseLatch w1; jobs := js1 ++ js2 |}
       else {| world := w1; jobs := js1 ++ Collecting (c1 ++ c2) received1 txCount :: js2 |})
| step_lookup s js1 js2 c1 v c2 received txCount tx :
    jobs s = js1 ++ Collecting (c1 ++ v :: c2) received txCount :: js2 →
    Status v = UNSTUCK →
    Transactions (pool (world s)) !! StatusHash v = Some tx →
    step s {| world := world s;
              jobs := js1 ++
                Removing Found (StatusHash v) tx (c1 ++ c2) received txCount :: js2 |}
| step_stamp s js1 js2 txHash tx commChan received txCount now :
    jobs s = js1 ++ Removing Found txHash tx commChan received txCount :: js2 →
    step s {| world := {| mem := stampUnstuck now tx (mem (world s));
                          pool := pool (world s) |};
              jobs := js1 ++
                Removing Stamped txHash tx commChan received txCount :: js2 |}
| step_detach s js1 js2 txHash tx commChan received txCount :
    jobs s = js1 ++ Removing Stamped txHash tx commChan received txCount :: js2 →
    step s {| world := {| mem := mem (world s);
                          pool := detach txHash tx (pool (world s)) |};
              jobs := js1 ++
                Removing Detached txHash tx commChan received txCount :: js2 |}
| step_publish s js1 js2 txHash tx commChan received txCount :
    jobs s = js1 ++ Removing Detached txHash tx commChan received txCount :: js2 →
    step s
      (let w1 :=
         handOver
           {| mem := mem (world s);
              pool := PublishRemoved (mem (world s)) (pool (world s))
                        (Transactions (pool (world s)) !! txHash) |} tx in
       if txCount <=? received + 1
       then {| world := releaseLatch w1; jobs := js1 ++ js2 |}
       else {| world := w1;
               jobs := js1 ++ Collecting commChan (received + 1) txCount :: js2 |}).

(** The states a new pool can get to. *)
Definition reachable (s : System) : Prop := ∃ m, rtc step (initial m) s.

(** ** Consistency of the three structures *)

Definition byPrice (m : Heap) : relation loc := λ a b, price m a ≤ price m b.

(** What the handlers keep: every key is the hash of its record, the
    ascending list holds the records of the map, each once, in
    non-decreasing price, and the descending list is its reverse. *)
Record Consistent (w : World) : Prop := mkConsistent {
  keyed : ∀ h tx, Transactions (pool w) !! h = Some tx → hashOf (mem w) tx = h;
  same_records :
    AscTxsByGasPrice (pool w) ≡ₚ (map_to_list (Transactions (pool w))).*2;
  asc_sorted : StronglySorted (byPrice (mem w)) (AscTxsByGasPrice (pool w));
  desc_reverse : DescTxsByGasPrice (pool w) = reverse (AscTxsByGasPrice (pool w))
}.

(** The record [tx] is stored in the map. *)
Definition stored (q : QueuedPool) (tx : loc) : Prop :=
  ∃ h, Transactions q !! h = Some tx.

(** Same element sets, each record once, same cardinality. *)
Definition SameRecords (q : QueuedPool) : Prop :=
  (∀ tx, tx ∈ AscTxsByGasPrice q ↔ stored q tx) ∧
  (∀ tx, tx ∈ DescTxsByGasPrice q ↔ stored q tx) ∧
  NoDup (AscTxsByGasPrice q) ∧ NoDup (DescTxsByGasPrice q) ∧
  length (AscTxsByGasPrice q) = size (Transactions q) ∧
  length (DescTxsByGasPrice q) = size (Transactions q).

(** Non-decreasing gas price along the list. *)
Definition NonDecreasing (m : Heap) (txs : list loc) : Prop :=
  ∀ i j a b, (i ≤ j)%nat → txs !! i = Some a → txs !! j = Some b →
    GasPrice (m a) ≤ GasPrice (m b).

(** ** Backing arrays *)

(** A Go slice is a window on a backing array.  [arrays] holds the
    arrays by identity; the pool's two lists live in [ascArr] and
    [descArr]. *)
Record Backed := mkBacked {
  sys : System;
  arrays : gmap positive (list loc);
  ascArr : positive;
  descArr : positive
}.

(** Modelled from the spec: where [Insert] and [Remove] of the sorted tx
    list (outside [queued.go]) leave their result.  The lists are sorted
    arrays shifted on insertion: the result overwrites the list's own
    backing array, or, when the array had to grow, a newly allocated
    one. *)
Definition place (grow : bool) (a : positive) (l : list loc)
    (A : gmap positive (list loc)) : gmap positive (list loc) * positive :=
  if grow then (<[fresh (dom A) := l]> A, fresh (dom A)) else (<[a := l]> A, a).

(** The pool after a step, on its arrays: each of the two lists is
    placed, in its own array or in a new one. *)
Definition install (growAsc growDesc : bool) (s' : System) (b : Backed) : Backed :=
  let '(A1, a1) :=
    place growAsc (ascArr b) (AscTxsByGasPrice (pool (world s'))) (arrays b) in
  let '(A2, a2) :=
    place growDesc (descArr b) (DescTxsByGasPrice (pool (world s'))) A1 in
  {| sys := s'; arrays := A2; ascArr := a1; descArr := a2 |}.

(** The array behind the list a request asks for. *)
Definition backing (o : TxList.Order) (b : Backed) : positive :=
  match o with TxList.ASC => ascArr b | TxList.DESC => descArr b end.

(** The list request on backing arrays: nil for an empty list, else
    [make] a new array of the same length and [copy] the list into it. *)
Definition ListTxs (o : TxList.Order) (b : Backed) : Backed * option positive :=
  let src := default [] (arrays b !! backing o b) in
  if Nat.eqb (length src) 0 then (b, None)
  else
    let copied := fresh (dom (arrays b)) in
    ({| sys := sys b; arrays := <[copied := src]> (arrays b);
        ascArr := ascArr b; descArr := descArr b |}, Some copied).

(** The pool's arrays hold the pool's lists. *)
Definition Coupled (b : Backed) : Prop :=
  arrays b !! ascArr b = Some (AscTxsByGasPrice (pool (world (sys b)))) ∧
  arrays b !! descArr b = Some (DescTxsByGasPrice (pool (world (sys b)))).

(** A caller's array: it holds [l] and is none of the pool's arrays. *)
Definition Held (b : Backed) (a : positive) (l : list loc) : Prop :=
  arrays b !! a = Some l ∧ a ≠ ascArr b ∧ a ≠ descArr b.

(** Steps of the pool on its arrays: any step of the pool, its lists
    placed afterwards, or a list request allocating its copy. *)
Inductive bstep : Backed → Backed → Prop :=
| bstep_pool b s' growAsc growDesc :
    step (sys b) s' → bstep b (install growAsc growDesc s' b)
| bstep_list b o : bstep b (ListTxs o b).1.

(** ** What a prune is expected to remove *)

Global Instance TxState_eq_dec : EqDecision TxState.
Proof. solve_decision. Defined.

(** The hashes reported unstuck among the messages of a channel. *)
Definition unstuckHashes (commChan : list TxStatus) : list common.Hash :=
  StatusHash <$> filter (λ v, Status v = UNSTUCK) commChan.

(** ** Sample records and pools *)

Module Sample.

Definition A : common.Address := 10.
Definition B : common.Address := 11.

Definition record (h : common.Hash) (from : common.Address) (nonce gasPrice : N) : MemPoolTx :=
  {| Hash := h; From := from; To := 0; Nonce := nonce; GasPrice := gasPrice;
     QueuedAt := 0; PendingAt := 0; UnstuckAt := 0; Pool := EmptyString |}.

(** Five records of the polling driver, at the pointers 1 to 5. *)
Definition heap : Heap := λ p,
  match p with
  | 1 => record 0xaa A 3 10
  | 2 => record 0xa1 A 5 30
  | 3 => record 0xa2 A 5 20
  | 4 => record 0xbb B 7 15
  | 5 => record 0xcc B 9 15
  | _ => record 0 0 0 0
  end%positive.

Definition empty : World := {| mem := heap; pool := emptyPool |}.

(** The pool after the records at the given pointers were added in turn. *)
Definition addAll (txs : list loc) (w : World) : World :=
  foldl (λ w tx, (Add 100 tx w).1) w txs.

Definition single : World := addAll [1]%positive empty.
Definition mixed : World := addAll [1; 4]%positive empty.
Definition three : World := addAll [1; 2; 3]%positive empty.
Definition twins : World := addAll [2; 3]%positive empty.

(** Upstream views: the record at pointer 4 is pending, the one at
    pointer 1 is still queued. *)
Definition upPending : Upstream := {[ "0x0b" := {[ "7" := 4%positive ]} ]}.
Definition upQueued : Upstream := {[ "0x0a" := {[ "3" := 1%positive ]} ]}.

Definition noRPC : common.Address → option N := λ _, None.
Definition noon : nat → Time := λ _, 200%Z.

(** The scheduler that hands the messages over last sent, first. *)
Definition lifo : ∀ A : Type, list A → list A := λ A l, reverse l.

(** The sample pool on its backing arrays. *)
Definition backed : Backed :=
  {| sys := {| world := three; jobs := [] |};
     arrays := {[ 1%positive := AscTxsByGasPrice (pool three);
                  2%positive := DescTxsByGasPrice (pool three) ]};
     ascArr := 1; descArr := 2 |}.

End Sample.

(** ** Feeding the pool from an upstream view: [AddQueued] *)

(** The loop body of [AddQueued] over the pointers it reaches, in
    order: each is offered to [Add] and counted when [Add] answers true;
    [clock k] is the time at the k-th call. *)
Fixpoint addEach (clock : nat → Time) (k : nat) (txs : list loc) (count : N)
    (w : World) : World * N :=
  match txs with
  | [] => (w, count)
  | tx :: rest =>
      let '(w1, ok) := Add (clock k) tx w in
      addEach clock (S k) rest (if ok then count + 1 else count) w1
  end.

Section Ranging.

(** A [range] over a Go map visits its entries in an order of the
    runtime's choosing. *)
Variable range : ∀ V : Type, gmap string V → list (string * V).

(** The pointers the two nested [range] loops of [AddQueued] reach:
    [txs[keyO][keyI]] for every inner key of every outer key.  A key that
    [range] yields is a key of the map. *)
Definition visited (txs : Upstream) : list loc :=
  (range _ txs).*1 ≫= λ keyO,
    omap (λ keyI, default ∅ (txs !! keyO) !! keyI)
         (range _ (default ∅ (txs !! keyO))).*1.

(** [AddQueued]: the world afterwards and the number of records newly
    inserted. *)
Definition AddQueued (clock : nat → Time) (txs : Upstream) (w : World) : World * N :=
  addEach clock 0 (visited txs) 0 w.

End Ranging.

(** ** The polling driver: [PollTxPoolContent] *)

(** What the driver does that others can see: a [txpool_content] call,
    a sleep of the polling period, the closing of the supervisor's
    channel. *)
Inductive PollEvent := Called | Slept (period : Z) | Closed.

(** [PollTxPoolContent] against the outcomes of its successive RPC calls
    ([true] for a call that succeeded): what it did, and whether it has
    returned.  With the outcomes used up and no failure the loop is
    still running.  [period] is [config.GetMemPoolPollingPeriod()]. *)
Fixpoint PollTxPoolContent (period : Z) (calls : list bool) : list PollEvent * bool :=
  match calls with
  | [] => ([], false)
  | ok :: rest =>
      if ok then
        let '(events, returned) := PollTxPoolContent period rest in
        (Called :: Slept period :: events, returned)
      else ([Called; Closed], true)
  end.

(** The fields of a record that identify it and price it. *)
Definition identity (r : MemPoolTx) : N * N * N * N * N :=
  (Hash r, From r, To r, Nonce r, GasPrice r).

(** The scheduler and the map iteration that keep the order they are
    given. *)
Definition fifo : ∀ A : Type, list A → list A := λ _ l, l.
Definition inOrder : ∀ V : Type, gmap string V → list (string * V) :=
  λ _ m, map_to_list m.

(** A filtered query answered with a slice holding, each once, the
    stored records the predicate keeps. *)
Definition Answers (w : World) (reply : Outcome (option (list loc)))
    (keep : MemPoolTx → bool) : Prop :=
  ∃ result,
    reply = Returns (Some result) ∧
    result ≡ₚ filter (λ tx, keep (mem w tx) = true) (DescTxsByGasPrice (pool w)) ∧
    NoDup result ∧
    ∀ tx, tx ∈ result ↔ stored (pool w) tx ∧ keep (mem w tx) = true.

(** The reply of a top-x query: [x] stored records, each once, such that
    [better a b] holds between every record returned and every stored
    record left out. *)
Definition Extremes (w : World) (reply : Outcome (option (list loc))) (x : N)
    (better : loc → loc → Prop) : Prop :=
  ∃ top,
    reply = Returns top ∧
    length (elems top) = N.to_nat x ∧
    NoDup (elems top) ∧
    (∀ a, a ∈ elems top → stored (pool w) a) ∧
    ∀ a b, a ∈ elems top → stored (pool w) b → b ∉ elems top → better a b.

(** The system after the owning task served one more request. *)
Definition servedNext (now : Time) (req : Request) (s : System) : System :=
  {| world := (serve now req (world s)).1;
     jobs := jobs s ++ spawned req (serve now req (world s)).2 |}.

(** A pool with its latch set while every prune goroutine waits in its
    receive loop with no message left to come. *)
Definition Stalled (s : System) : Prop :=
  IsPruning (pool (world s)) = true ∧
  ∀ j, j ∈ jobs s → ∃ received txCount, j = Collecting [] received txCount.

(** The sample pool emptied under a prune: one record added, a prune
    requested, the record removed before the goroutine took its
    snapshot. *)
Definition emptiedUnderPrune : System :=
  servedNext 130 (RemovedUnstuckTx 0xaa)
    (servedNext 120 (RemoveTxsFromQueuedPool Sample.upPending Sample.upQueued)
       (servedNext 100 (AddRequest 1) (initial Sample.heap))).

(** ** A removal by a prune goroutine overtaken by the owning task *)

(** The sample heap with the transaction 0xaa decoded a second time, at
    pointer 6: the record the polling driver builds when the node
    reports the transaction again. *)
Definition heapAgain : Heap :=
  <[6%positive := Sample.record 0xaa Sample.A 3 10]> Sample.heap.

(** One record added, a prune requested with the record reported as
    pending upstream, the goroutine at its snapshot, its message UNSTUCK
    received and the record found by [txRemover] under the read lock. *)
Definition lookedUp : System :=
  {| world :=
       world (servedNext 120 (RemoveTxsFromQueuedPool Sample.upQueued ∅)
                (servedNext 100 (AddRequest 1) (initial heapAgain)));
     jobs := [Removing Found 0xaa 1 [] 0 1] |}.

(** Before the goroutine gets to its write section the owning task
    serves a removal of 0xaa and then the add of the record at
    pointer 6. *)
Definition overtaken : System :=
  servedNext 140 (AddRequest 6) (servedNext 130 (RemovedUnstuckTx 0xaa) lookedUp).



(** The other order: the goroutine is through its write section when the
    owning task serves the add of the record at pointer 6, and then reads
    the map for its exit publication. *)
Definition detachedFirst : System :=
  {| world := {| mem := stampUnstuck 125 1 (mem (world lookedUp));
                 pool := detach 0xaa 1 (pool (world lookedUp)) |};
     jobs := [Removing Detached 0xaa 1 [] 0 1] |}.

Definition addedBeforeReread : System := servedNext 140 (AddRequest 6) detachedFirst.

Definition rereadPublished : System :=
  {| world :=
       releaseLatch
         (handOver
            {| mem := mem (world addedBeforeReread);
               pool := PublishRemoved (mem (world addedBeforeReread))
                         (pool (world addedBeforeReread))
                         (Transactions (pool (world addedBeforeReread)) !! 0xaa) |} 1);
     jobs := [] |}.

(** What a publication of the pool looks like: on the entry topic a
    record labelled queued, on the exit topic nil. *)
Definition AsPublished (p : Publication) : Prop :=
  match topic p with
  | EntryTopic => ∃ r, payload p = Some r ∧ Pool r = "queued"%string
  | ExitTopic => payload p = None
  end.

(** ** Sorted lists: insertion and removal *)

Section SortedLists.

Variable m : Heap.

Lemma insertAsc_perm tx l : TxList.insertAsc m tx l ≡ₚ tx :: l.
Proof.
  induction l as [|y l IH]; simpl; [done|].
  destruct (price m y <=? price m tx); [|done].
  rewrite IH. apply Permutation_swap.
Qed.

Lemma insertDesc_perm tx l : TxList.insertDesc m tx l ≡ₚ tx :: l.
Proof.
  induction l as [|y l IH]; simpl; [done|].
  destruct (price m tx <? price m y); [|done].
  rewrite IH. apply Permutation_swap.
Qed.

Lemma insertAsc_sorted tx l :
  StronglySorted (byPrice m) l →
  StronglySorted (byPrice m) (TxList.insertAsc m tx l).
Proof.
  induction 1 as [|y l Hs IH Hall]; simpl.
  - repeat constructor.
  - destruct (N.leb_spec (price m y) (price m tx)) as [Hle|Hlt].
    + constructor; [done|].
      rewrite list.Forall_forall. intros z Hz.
      rewrite insertAsc_perm in Hz. apply elem_of_cons in Hz as [->|Hz]; [done|].
      rewrite list.Forall_forall in Hall. by apply Hall.
    + constructor; [by constructor|].
      constructor; [unfold byPrice; lia|].
      eapply list.Forall_impl; [exact Hall|]. unfold byPrice. intros z ?. simpl in *. lia.
Qed.

(** Past an entry that is not dearer, the descending insertion does not
    look at what follows. *)
Lemma insertDesc_snoc tx l y :
  price m y ≤ price m tx →
  TxList.insertDesc m tx (l ++ [y]) = TxList.insertDesc m tx l ++ [y].
Proof.
  intros Hy. induction l as [|z l IH]; simpl.
  - destruct (N.ltb_spec (price m tx) (price m y)); [lia|done].
  - destruct (price m tx <? price m z); [by rewrite IH|done].
Qed.

Lemma insertDesc_all_dearer tx l :
  Forall (λ z, price m tx < price m z) l →
  TxList.insertDesc m tx l = l ++ [tx].
Proof.
  induction 1 as [|z l Hz _ IH]; simpl; [done|].
  destruct (N.ltb_spec (price m tx) (price m z)); [by rewrite IH|lia].
Qed.

Lemma insertDesc_reverse tx l :
  StronglySorted (byPrice m) l →
  TxList.insertDesc m tx (reverse l) = reverse (TxList.insertAsc m tx l).
Proof.
  induction 1 as [|y l Hs IH Hall]; simpl; [done|].
  destruct (N.leb_spec (price m y) (price m tx)) as [Hle|Hlt].
  - rewrite !reverse_cons, insertDesc_snoc, IH; done.
  - rewrite !reverse_cons, <-reverse_cons.
    rewrite insertDesc_all_dearer; [by rewrite <-!reverse_cons|].
    rewrite list.Forall_forall. intros z Hz.
    apply elem_of_reverse, elem_of_cons in Hz as [->|Hz]; [done|].
    rewrite list.Forall_forall in Hall. specialize (Hall z Hz).
    unfold byPrice in Hall. lia.
Qed.

Lemma sorted_nondecreasing l :
  StronglySorted (byPrice m) l → NonDecreasing m l.
Proof.
  induction 1 as [|y l Hs IH Hall]; intros i j a b Hij Hi Hj.
  - by rewrite lookup_nil in Hi.
  - destruct i as [|i], j as [|j]; simpl in *; simplify_eq; try lia.
    + rewrite list.Forall_forall in Hall. apply (Hall b).
      by eapply list_elem_of_lookup_2.
    + apply (IH i j); [lia|done..].
Qed.

End SortedLists.

Lemma sorted_ext (m m' : Heap) l :
  (∀ tx, tx ∈ l → price m' tx = price m tx) →
  StronglySorted (byPrice m) l → StronglySorted (byPrice m') l.
Proof.
  intros Hext Hs. induction Hs as [|y l Hs IH Hall]; [constructor|].
  constructor.
  - apply IH. intros tx Htx. apply Hext. by right.
  - rewrite list.Forall_forall in *. intros z Hz. unfold byPrice.
    rewrite !Hext; [by apply Hall|by right|by left].
Qed.

Lemma Remove_absent l tx : tx ∉ l → TxList.Remove l tx = l.
Proof.
  induction l as [|y l IH]; simpl; [done|]. intros Hn.
  apply not_elem_of_cons in Hn as [Hne Hn].
  destruct (decide (y = tx)); [congruence|]. by rewrite IH.
Qed.

Lemma Remove_perm l tx : tx ∈ l → l ≡ₚ tx :: TxList.Remove l tx.
Proof.
  induction l as [|y l IH]; simpl; [by intros ?%elem_of_nil|].
  intros Hin. destruct (decide (y = tx)) as [->|Hne]; [done|].
  apply elem_of_cons in Hin as [->|Hin]; [done|].
  rewrite (IH Hin) at 1. apply Permutation_swap.
Qed.

Lemma Remove_sublist l tx : TxList.Remove l tx `sublist_of` l.
Proof.
  induction l as [|y l IH]; simpl; [done|].
  destruct (decide (y = tx)); [by apply sublist_cons|by apply sublist_skip].
Qed.

Lemma Remove_gone l tx : NoDup l → tx ∉ TxList.Remove l tx.
Proof.
  induction 1 as [|y l Hy Hnd IH]; simpl; [apply not_elem_of_nil|].
  destruct (decide (y = tx)) as [->|Hne]; [done|].
  apply not_elem_of_cons. split; [congruence|done].
Qed.

Lemma Remove_other l tx z : z ≠ tx → z ∈ TxList.Remove l tx ↔ z ∈ l.
Proof.
  intros Hz. induction l as [|y l IH]; simpl; [done|].
  destruct (decide (y = tx)) as [->|Hne].
  - rewrite elem_of_cons. split; [by right|by intros [->|?]].
  - by rewrite !elem_of_cons, IH.
Qed.

Lemma Remove_snoc l y tx :
  tx ∉ l → TxList.Remove (l ++ [y]) tx = l ++ TxList.Remove [y] tx.
Proof.
  induction l as [|z l IH]; simpl; [done|]. intros Hn.
  apply not_elem_of_cons in Hn as [Hne Hn].
  destruct (decide (z = tx)); [congruence|]. by rewrite IH.
Qed.

Lemma Remove_app_l l k tx :
  tx ∈ l → TxList.Remove (l ++ k) tx = TxList.Remove l tx ++ k.
Proof.
  induction l as [|z l IH]; simpl; [by intros ?%elem_of_nil|]. intros Hin.
  destruct (decide (z = tx)); [done|].
  apply elem_of_cons in Hin as [->|Hin]; [congruence|]. by rewrite IH.
Qed.

Lemma Remove_reverse l tx :
  NoDup l → TxList.Remove (reverse l) tx = reverse (TxList.Remove l tx).
Proof.
  induction 1 as [|y l Hy Hnd IH]; simpl; [done|].
  rewrite reverse_cons. destruct (decide (y = tx)) as [->|Hne].
  - rewrite Remove_snoc; [|by rewrite elem_of_reverse].
    simpl. destruct (decide (tx = tx)); [|done]. by rewrite app_nil_r.
  - destruct (decide (tx ∈ l)) as [Hin|Hnin].
    + rewrite Remove_app_l, IH, reverse_cons; [done|by rewrite elem_of_reverse].
    + rewrite Remove_snoc; [|by rewrite elem_of_reverse].
      simpl. destruct (decide (y = tx)); [done|].
      by rewrite Remove_absent, reverse_cons.
Qed.

Lemma sublist_strongly_sorted {A} (R : relation A) (l k : list A) :
  l `sublist_of` k → StronglySorted R k → StronglySorted R l.
Proof.
  induction 1 as [|x l k Hsub IH|x l k Hsub IH]; intros Hs; [done|..].
  - apply StronglySorted_inv in Hs as [Hs Hall]. constructor; [by apply IH|].
    rewrite list.Forall_forall in *. intros z Hz. apply Hall.
    by eapply elem_of_sublist.
  - apply StronglySorted_inv in Hs as [Hs _]. by apply IH.
Qed.

(** ** Writes through a pointer keep hash and price *)

Lemma hashOf_alter (f : MemPoolTx → MemPoolTx) (m : Heap) tx p :
  (∀ r, Hash (f r) = Hash r) → hashOf (alter f tx m) p = hashOf m p.
Proof.
  intros Hf. unfold hashOf, alter, fn_alter.
  destruct (decide (tx = p)) as [->|]; [apply Hf|done].
Qed.

Lemma price_alter (f : MemPoolTx → MemPoolTx) (m : Heap) tx p :
  (∀ r, GasPrice (f r) = GasPrice r) → price (alter f tx m) p = price m p.
Proof.
  intros Hf. unfold price, alter, fn_alter.
  destruct (decide (tx = p)) as [->|]; [apply Hf|done].
Qed.

(** ** What consistency gives *)

Lemma stored_values (q : QueuedPool) tx :
  tx ∈ (map_to_list (Transactions q)).*2 ↔ stored q tx.
Proof.
  rewrite list_elem_of_fmap. split.
  - intros [[h p] [-> Hin]]. exists h. by apply elem_of_map_to_list.
  - intros [h Hh]. exists (h, tx). split; [done|]. by apply elem_of_map_to_list.
Qed.

Lemma Consistent_NoDup w : Consistent w → NoDup (AscTxsByGasPrice (pool w)).
Proof.
  intros [Hk Hp _ _]. rewrite Hp.
  apply NoDup_fmap_2_strong; [|apply NoDup_map_to_list].
  intros [h1 p1] [h2 p2] H1%elem_of_map_to_list H2%elem_of_map_to_list; simpl.
  intros <-. by rewrite <-(Hk _ _ H1), <-(Hk _ _ H2).
Qed.

Lemma Consistent_SameRecords w : Consistent w → SameRecords (pool w).
Proof.
  intros Hc. pose proof (Consistent_NoDup w Hc) as Hnd.
  destruct Hc as [Hk Hp Hs Hr].
  assert (Hlen : length (AscTxsByGasPrice (pool w)) = size (Transactions (pool w))).
  { by rewrite Hp, length_fmap, length_map_to_list. }
  repeat split.
  - intros Hin. apply stored_values. by rewrite <-Hp.
  - intros Hin. rewrite Hp. by apply stored_values.
  - rewrite Hr, elem_of_reverse. intros Hin. apply stored_values. by rewrite <-Hp.
  - intros Hin. rewrite Hr, elem_of_reverse, Hp. by apply stored_values.
  - done.
  - by rewrite Hr, reverse_Permutation.
  - done.
  - by rewrite Hr, length_reverse.
Qed.

Lemma Consistent_same_store w w' :
  mem w' = mem w →
  Transactions (pool w') = Transactions (pool w) →
  AscTxsByGasPrice (pool w') = AscTxsByGasPrice (pool w) →
  DescTxsByGasPrice (pool w') = DescTxsByGasPrice (pool w) →
  Consistent w → Consistent w'.
Proof.
  intros Hm HT Ha Hd [Hk Hp Hs Hr].
  split; rewrite ?Hm, ?HT, ?Ha, ?Hd; done.
Qed.

Lemma Consistent_empty m : Consistent {| mem := m; pool := emptyPool |}.
Proof.
  split; simpl.
  - intros h tx Hh. by rewrite lookup_empty in Hh.
  - by rewrite map_to_list_empty.
  - constructor.
  - done.
Qed.

(** ** Every handler keeps the structures consistent *)

Lemma Consistent_outside w m' :
  keepsIdentity (pool w) (mem w) m' →
  Consistent w → Consistent {| mem := m'; pool := pool w |}.
Proof.
  intros Hid Hc. pose proof (Consistent_SameRecords w Hc) as (Hasc & _).
  destruct Hc as [Hk Hp Hs Hr]. split; simpl; try done.
  - intros h tx Hh. destruct (Hid h tx Hh) as [Hh' _].
    unfold hashOf. rewrite Hh'. by apply Hk.
  - eapply sorted_ext; [|exact Hs].
    intros tx [h Hh]%Hasc. unfold price. by destruct (Hid h tx Hh) as [_ ->].
Qed.

Lemma Consistent_handleAdd now tx w :
  Consistent w → Consistent (handleAdd now tx w).1.
Proof.
  intros Hc. unfold handleAdd.
  destruct (Transactions (pool w) !! hashOf (mem w) tx) as [?|] eqn:Hfree; [done|].
  destruct Hc as [Hk Hp Hs Hr]. simpl.
  set (m1 := alter (markQueued now) tx (mem w)).
  assert (Hhash : ∀ p, hashOf m1 p = hashOf (mem w) p).
  { intros p. by apply hashOf_alter. }
  assert (Hs1 : StronglySorted (byPrice m1) (AscTxsByGasPrice (pool w))).
  { eapply sorted_ext; [|exact Hs]. intros p _. by apply price_alter. }
  split; simpl.
  - intros h p. rewrite Hhash, lookup_insert.
    case_decide as Hcase; [intros [= <-]; by rewrite Hhash|].
    intros Hh. rewrite Hhash. by apply Hk.
  - rewrite insertAsc_perm, Hhash, map_to_list_insert, fmap_cons by done.
    simpl. by rewrite Hp.
  - by apply insertAsc_sorted.
  - rewrite Hr. by apply insertDesc_reverse.
Qed.

Lemma Consistent_txRemover now h w :
  Consistent w → Consistent (txRemover now h w).1.
Proof.
  intros Hc. unfold txRemover.
  destruct (Transactions (pool w) !! h) as [tx|] eqn:Hh; [|done].
  pose proof (Consistent_NoDup w Hc) as Hnd.
  pose proof (Consistent_SameRecords w Hc) as (Hasc & _).
  destruct Hc as [Hk Hp Hs Hr].
  split; simpl.
  - intros h' p [Hne Hp']%lookup_delete_Some.
    unfold stampUnstuck. rewrite hashOf_alter by done. by apply Hk.
  - assert (Hin : tx ∈ AscTxsByGasPrice (pool w)) by (apply Hasc; by exists h).
    apply (Permutation.Permutation_cons_inv (a:=tx)).
    rewrite <-(Remove_perm _ _ Hin), Hp.
    by rewrite <-(map_to_list_delete _ _ _ Hh), fmap_cons.
  - eapply sorted_ext.
    + intros p _. unfold stampUnstuck. by apply price_alter.
    + eapply sublist_strongly_sorted; [apply Remove_sublist|done].
  - rewrite Hr. by apply Remove_reverse.
Qed.

Lemma Consistent_handlePrune w :
  Consistent w → Consistent (handlePrune w).1.1.
Proof.
  intros Hc. unfold handlePrune.
  destruct (IsPruning (pool w)); [done|].
  destruct (TxList.len (DescTxsByGasPrice (pool w)) =? 0)%nat; [done|].
  by eapply Consistent_same_store; [..|exact Hc].
Qed.

Lemma Consistent_serve now req w :
  Consistent w → Consistent (serve now req w).1.
Proof.
  intros Hc. destruct req as [tx|h|pending queued|h|h| |o]; simpl; try done.
  - pose proof (Consistent_handleAdd now tx w Hc). by destruct (handleAdd now tx w).
  - pose proof (Consistent_txRemover now h w Hc). by destruct (txRemover now h w).
  - pose proof (Consistent_handlePrune w Hc). by destruct (handlePrune w) as [[? ?] ?].
Qed.

Lemma Consistent_collectOne now v received txCount w :
  Consistent w → Consistent (collectOne now v received txCount w).1.1.
Proof.
  intros Hc. unfold collectOne. destruct (Status v); [done|].
  pose proof (Consistent_txRemover now (StatusHash v) w Hc) as Hc1.
  destruct (txRemover now (StatusHash v) w) as [w1 [tx|]]; simpl in *; [|done].
  by eapply Consistent_same_store; [..|exact Hc1].
Qed.

Lemma Consistent_releaseLatch w : Consistent w → Consistent (releaseLatch w).
Proof. intros Hc. by eapply Consistent_same_store; [..|exact Hc]. Qed.

(** ** Removals by a prune goroutine, step by step *)

(** The four steps of a removal by a prune goroutine, taken with no
    request served in between, are the loop body [collectOne]. *)
Lemma removal_uninterrupted s js1 js2 c1 v c2 received txCount now :
  jobs s = js1 ++ Collecting (c1 ++ v :: c2) received txCount :: js2 →
  rtc step s
    (let '(w1, received1, done) := collectOne now v received txCount (world s) in
     if done then {| world := releaseLatch w1; jobs := js1 ++ js2 |}
     else {| world := w1; jobs := js1 ++ Collecting (c1 ++ c2) received1 txCount :: js2 |}).
Proof.
  intros Hj.
  destruct (Status v) eqn:Hv.
  { apply rtc_once. apply step_receive; [done|]. by rewrite Hv. }
  destruct (Transactions (pool (world s)) !! StatusHash v) as [tx|] eqn:Hh.
  2: { apply rtc_once. by apply step_receive. }
  eapply rtc_l; [by eapply step_lookup|].
  eapply rtc_l; [by eapply (step_stamp _ js1 js2 _ _ _ _ _ now)|].
  eapply rtc_l; [by eapply (step_detach _ js1 js2)|].
  eapply rtc_l; [by eapply (step_publish _ js1 js2)|].
  unfold collectOne, txRemover. rewrite Hv, Hh. simpl.
  apply rtc_refl.
Qed.

Lemma Consistent_stamp now tx w :
  Consistent w → Consistent {| mem := stampUnstuck now tx (mem w); pool := pool w |}.
Proof.
  apply Consistent_outside. intros h p _. split.
  - by apply (hashOf_alter (markUnstuck now)).
  - by apply (price_alter (markUnstuck now)).
Qed.

Lemma Consistent_detach h tx w :
  Transactions (pool w) !! h = Some tx →
  Consistent w → Consistent {| mem := mem w; pool := detach h tx (pool w) |}.
Proof.
  intros Hh Hc.
  pose proof (Consistent_NoDup w Hc) as Hnd.
  pose proof (Consistent_SameRecords w Hc) as (Hasc & _).
  destruct Hc as [Hk Hp Hs Hr].
  split; simpl.
  - intros h' p [Hne Hp']%lookup_delete_Some. by apply Hk.
  - assert (Hin : tx ∈ AscTxsByGasPrice (pool w)) by (apply Hasc; by exists h).
    apply (Permutation.Permutation_cons_inv (a:=tx)).
    rewrite <-(Remove_perm _ _ Hin), Hp.
    by rewrite <-(map_to_list_delete _ _ _ Hh), fmap_cons.
  - eapply sublist_strongly_sorted; [|exact Hs]. apply Remove_sublist.
  - rewrite Hr. by apply Remove_reverse.
Qed.

(** A step keeps the three structures in step as long as every goroutine
    about to enter the write section of [txRemover] still holds the
    pointer stored under its hash. *)
Lemma Consistent_step s s' :
  step s s' →
  (∀ js1 js2 h tx c r n,
     jobs s = js1 ++ Removing Stamped h tx c r n :: js2 →
     Transactions (pool (world s)) !! h = Some tx) →
  Consistent (world s) → Consistent (world s').
Proof.
  intros Hstep Hfresh Hc. destruct Hstep as
    [s m' Hid|s now req|s js1 js2 pending queued rpc Hj
    |s js1 js2 c1 v c2 received txCount now Hj Hnone
    |s js1 js2 c1 v c2 received txCount tx Hj Hv Hh
    |s js1 js2 txHash tx commChan received txCount now Hj
    |s js1 js2 txHash tx commChan received txCount Hj
    |s js1 js2 txHash tx commChan received txCount Hj]; simpl.
  - by apply Consistent_outside.
  - by apply Consistent_serve.
  - done.
  - pose proof (Consistent_collectOne now v received txCount _ Hc) as Hc1.
    destruct (collectOne now v received txCount (world s)) as [[w1 r1] [|]];
      simpl in *; [by apply Consistent_releaseLatch|done].
  - done.
  - by apply Consistent_stamp.
  - apply Consistent_detach; [|done]. by eapply Hfresh.
  - destruct (txCount <=? received + 1); simpl;
      by eapply Consistent_same_store; [..|exact Hc].
Qed.

(** ** The sample pools behave as the scenarios say *)

Example three_asc : AscTxsByGasPrice (pool Sample.three) = [1; 3; 2]%positive.
Proof. vm_compute. reflexivity. Qed.

Example three_desc : DescTxsByGasPrice (pool Sample.three) = [2; 3; 1]%positive.
Proof. vm_compute. reflexivity. Qed.

Example three_count : Count Sample.three = 3.
Proof. vm_compute. reflexivity. Qed.

Example single_exists : Exists Sample.single 0xaa = true.
Proof. vm_compute. reflexivity. Qed.

(** ** The claims *)


(** C2.  [Add] answers true exactly when the hash of the record was not
    a key of the map.  On true the record is stored under its hash and
    sits in both lists, [Exists] holds, [QueuedAt] is the current time,
    [Pool] is "queued", and one entry publication carrying the record
    was made.  On false the world is unchanged.  A second [Add] of the
    same record answers false and changes nothing, so the two calls on a
    fresh record publish one entry event. *)
Theorem C2_add_inserts_once (now now' : Time) (tx : loc) (w : World) :
  let h := hashOf (mem w) tx in
  let w1 := (Add now tx w).1 in
  let w2 := (Add now' tx w1).1 in
  ((Add now tx w).2 = true ↔ Transactions (pool w) !! h = None) ∧
  ((Add now tx w).2 = true →
     Transactions (pool w1) !! h = Some tx ∧
     Exists w1 h = true ∧
     tx ∈ AscTxsByGasPrice (pool w1) ∧
     tx ∈ DescTxsByGasPrice (pool w1) ∧
     mem w1 tx = markQueued now (mem w tx) ∧
     QueuedAt (mem w1 tx) = now ∧
     Pool (mem w1 tx) = "queued"%string ∧
     PubSub (pool w1)
       = PubSub (pool w) ++ [{| topic := EntryTopic; payload := Some (mem w1 tx) |}]) ∧
  ((Add now tx w).2 = false → w1 = w) ∧
  (Add now' tx w1).2 = false ∧
  w2 = w1 ∧
  (Transactions (pool w) !! h = None →
     PubSub (pool w2)
       = PubSub (pool w) ++ [{| topic := EntryTopic; payload := Some (mem w1 tx) |}]).
Proof.
  intros h w1 w2.
  assert (Hsecond : (Add now' tx w1).2 = false ∧ w2 = w1).
  { subst w2 w1 h. unfold Add, handleAdd.
    destruct (Transactions (pool w) !! hashOf (mem w) tx) eqn:Hh; simpl.
    - by rewrite Hh.
    - rewrite !hashOf_alter by done. by rewrite lookup_insert_eq. }
  assert (Hfresh : Transactions (pool w) !! h = None →
     Transactions (pool w1) !! h = Some tx ∧
     Exists w1 h = true ∧
     tx ∈ AscTxsByGasPrice (pool w1) ∧
     tx ∈ DescTxsByGasPrice (pool w1) ∧
     mem w1 tx = markQueued now (mem w tx) ∧
     QueuedAt (mem w1 tx) = now ∧
     Pool (mem w1 tx) = "queued"%string ∧
     PubSub (pool w1)
       = PubSub (pool w) ++ [{| topic := EntryTopic; payload := Some (mem w1 tx) |}]).
  { intros Hh. subst w1 h. unfold Add, Exists, handleExists, handleAdd.
    rewrite Hh. simpl. rewrite !hashOf_alter by done.
    rewrite lookup_insert_eq, fn_lookup_alter.
    split_and!; try done.
    - rewrite insertAsc_perm. by left.
    - rewrite insertDesc_perm. by left. }
  assert (Hiff : (Add now tx w).2 = true ↔ Transactions (pool w) !! h = None).
  { subst h. unfold Add, handleAdd.
    destruct (Transactions (pool w) !! hashOf (mem w) tx); simpl; split; done. }
  split; [done|]. split; [by intros ?%Hiff%Hfresh|].
  split.
  { subst w1 h. unfold Add, handleAdd.
    destruct (Transactions (pool w) !! hashOf (mem w) tx); simpl; done. }
  split; [apply Hsecond|]. split; [apply Hsecond|].
  intros Hh. destruct Hsecond as [_ ->]. by apply Hfresh.
Qed.

(** C3.  [Remove] of a hash that is no key answers nil and leaves the
    world as it was.  Otherwise it answers the pointer stored under the
    hash; that record, and no other, is stamped with the current time in
    [UnstuckAt]; the key is deleted, so [Exists] fails afterwards; and in
    a consistent pool the record is gone from both sorted lists while
    every other entry stays. *)
Theorem C3_remove_detaches (now : Time) (h : common.Hash) (w : World) :
  let w' := (Remove now h w).1 in
  (Transactions (pool w) !! h = None → Remove now h w = (w, None)) ∧
  (∀ tx, Transactions (pool w) !! h = Some tx →
     (Remove now h w).2 = Some tx ∧
     mem w' = stampUnstuck now tx (mem w) ∧
     mem w' tx = markUnstuck now (mem w tx) ∧
     UnstuckAt (mem w' tx) = now ∧
     (∀ p, p ≠ tx → mem w' p = mem w p) ∧
     Transactions (pool w') = delete h (Transactions (pool w)) ∧
     AscTxsByGasPrice (pool w') = TxList.Remove (AscTxsByGasPrice (pool w)) tx ∧
     DescTxsByGasPrice (pool w') = TxList.Remove (DescTxsByGasPrice (pool w)) tx ∧
     (Consistent w →
        (tx ∉ AscTxsByGasPrice (pool w')) ∧ (tx ∉ DescTxsByGasPrice (pool w')) ∧
        ∀ p, p ≠ tx →
          (p ∈ AscTxsByGasPrice (pool w') ↔ p ∈ AscTxsByGasPrice (pool w)) ∧
          (p ∈ DescTxsByGasPrice (pool w') ↔ p ∈ DescTxsByGasPrice (pool w)))) ∧
  ((Remove now h w).2 ≠ None →
     Transactions (pool w') !! h = None ∧ Exists w' h = false).
Proof.
  intros w'. subst w'. unfold Remove, txRemover, Exists, handleExists.
  destruct (Transactions (pool w) !! h) as [tx|] eqn:Hh; simpl.
  - split; [done|]. split.
    + intros ? [= <-]. split_and!; try done.
      * unfold stampUnstuck. by rewrite fn_lookup_alter.
      * unfold stampUnstuck. by rewrite fn_lookup_alter.
      * intros p Hp. unfold stampUnstuck. by rewrite fn_lookup_alter_ne.
      * intros Hc. pose proof (Consistent_NoDup w Hc) as Hnd. split_and!.
        -- by apply Remove_gone.
        -- apply Remove_gone. destruct Hc as [_ _ _ ->].
           by rewrite reverse_Permutation.
        -- intros p Hp. split; by apply Remove_other.
    + intros _. rewrite lookup_delete_eq. split; [done|].
      apply bool_decide_eq_false. by intros [? ?].
  - split; [done|]. split; [done|]. by intros [].
Qed.

(** A removal that finds its record hands nil to the exit publisher:
    the map is read again after the key was deleted. *)
Lemma txRemover_publishes_nil now h w tx :
  Transactions (pool w) !! h = Some tx →
  PubSub (pool (txRemover now h w).1)
    = PubSub (pool w) ++ [{| topic := ExitTopic; payload := None |}].
Proof.
  intros Hh. unfold txRemover. rewrite Hh. simpl. by rewrite lookup_delete_eq.
Qed.

(** C4.  On the sample pool holding 0xaa, [Remove(0xaa)] answers the
    removed record (pointer 1), yet the one exit publication it makes
    carries nil and not that record. *)
Theorem C4_exit_event_carries_nil :
  (Remove 200 0xaa Sample.single).2 = Some 1%positive ∧
  PubSub (pool (Remove 200 0xaa Sample.single).1)
    = PubSub (pool Sample.single) ++ [{| topic := ExitTopic; payload := None |}] ∧
  {| topic := ExitTopic; payload := Some (mem (Remove 200 0xaa Sample.single).1 1%positive) |}
    ∉ PubSub (pool (Remove 200 0xaa Sample.single).1).
Proof.
  split; [by vm_compute|]. split; [by vm_compute|].
  vm_compute. intros Hin.
  repeat (apply elem_of_cons in Hin as [Hin|Hin]; [discriminate Hin|]).
  by apply elem_of_nil in Hin.
Qed.

(** C5.  A prune request answers PRUNING while the latch is set and
    EMPTY when the descending list is empty, leaving the world as it
    was; otherwise it sets the latch, answers SCHEDULED, leaves map,
    lists and heap alone and starts the goroutine that will do the work.
    Two requests in a row on a non-empty pool with no prune in flight
    answer SCHEDULED, then PRUNING. *)
Theorem C5_prune_guards (now : Time) (pending queued : Upstream) (w : World) :
  (IsPruning (pool w) = true → handlePrune w = (w, PRUNING, false)) ∧
  (IsPruning (pool w) = false → DescTxsByGasPrice (pool w) = [] →
     handlePrune w = (w, EMPTY, false)) ∧
  (IsPruning (pool w) = false → DescTxsByGasPrice (pool w) ≠ [] →
     handlePrune w
       = ({| mem := mem w; pool := setPruning (pool w) true |}, SCHEDULED, true) ∧
     spawned (RemoveTxsFromQueuedPool pending queued)
       (serve now (RemoveTxsFromQueuedPool pending queued) w).2
       = [Spawned pending queued] ∧
     (RemoveUnstuck w).2 = SCHEDULED ∧
     IsPruning (pool (RemoveUnstuck w).1) = true ∧
     (RemoveUnstuck (RemoveUnstuck w).1).2 = PRUNING ∧
     (RemoveUnstuck (RemoveUnstuck w).1).1 = (RemoveUnstuck w).1) ∧
  (∀ r, r ≠ SCHEDULED → (RemoveUnstuck w).2 = r →
     (RemoveUnstuck w).1 = w ∧
     spawned (RemoveTxsFromQueuedPool pending queued)
       (serve now (RemoveTxsFromQueuedPool pending queued) w).2 = []).
Proof.
  unfold RemoveUnstuck, serve, handlePrune, TxList.len.
  destruct (IsPruning (pool w)) eqn:Hp; simpl.
  - repeat split; try done.
  - destruct (DescTxsByGasPrice (pool w)) as [|tx txs] eqn:Hd; simpl.
    + repeat split; try done.
    + repeat split; try done. all: by intros r Hr <-.
Qed.

(** ** The list request and what is built on it *)

Lemma handleList_elems o w :
  elems (handleList o w)
    = match o with
      | TxList.ASC => AscTxsByGasPrice (pool w)
      | TxList.DESC => DescTxsByGasPrice (pool w)
      end.
Proof.
  unfold handleList, TxList.len, TxList.get.
  destruct o; [destruct (AscTxsByGasPrice (pool w))|destruct (DescTxsByGasPrice (pool w))];
    done.
Qed.

Lemma handleList_nil o w :
  handleList o w = None ↔
    match o with
    | TxList.ASC => AscTxsByGasPrice (pool w)
    | TxList.DESC => DescTxsByGasPrice (pool w)
    end = [].
Proof.
  unfold handleList, TxList.len, TxList.get.
  destruct o; [destruct (AscTxsByGasPrice (pool w))|destruct (DescTxsByGasPrice (pool w))];
    done.
Qed.

Lemma handleList_length o w :
  Consistent w → N.of_nat (length (elems (handleList o w))) = Count w.
Proof.
  intros [_ _ _ Hr]. rewrite handleList_elems. unfold Count, handleCount, TxList.len.
  destruct o; [done|]. by rewrite Hr, length_reverse.
Qed.

Lemma sliceTo_within s x :
  x ≤ N.of_nat (length (elems s)) →
  ∃ s', sliceTo s x = Returns s' ∧ elems s' = take (N.to_nat x) (elems s).
Proof.
  intros Hx. destruct s as [l|]; simpl in *.
  - destruct (N.leb_spec x (N.of_nat (length l))); [|lia]. by eexists.
  - assert (x = 0) as -> by lia. by eexists.
Qed.

Lemma sliceTo_beyond s x :
  N.of_nat (length (elems s)) < x → sliceTo s x = Panics.
Proof.
  intros Hx. destruct s as [l|]; simpl in *.
  - destruct (N.leb_spec x (N.of_nat (length l))); [lia|done].
  - destruct (N.eqb_spec x 0); [lia|done].
Qed.

(** C8.  In a consistent pool and for [x] up to [Count()],
    [TopXWithHighGasPrice(x)] returns the first [x] entries of the
    descending list and [TopXWithLowGasPrice(x)] the first [x] of the
    ascending list, without a panic; beyond [Count()] both panic. *)
Theorem C8_topx_within_count (w : World) (x : N) :
  Consistent w →
  (x ≤ Count w →
     (∃ s, TopXWithHighGasPrice w x = Returns s ∧
           elems s = take (N.to_nat x) (DescTxsByGasPrice (pool w))) ∧
     (∃ s, TopXWithLowGasPrice w x = Returns s ∧
           elems s = take (N.to_nat x) (AscTxsByGasPrice (pool w)))) ∧
  (Count w < x →
     TopXWithHighGasPrice w x = Panics ∧ TopXWithLowGasPrice w x = Panics).
Proof.
  intros Hc. unfold TopXWithHighGasPrice, TopXWithLowGasPrice, DescListTxs, AscListTxs.
  pose proof (handleList_length TxList.DESC w Hc) as Hd.
  pose proof (handleList_length TxList.ASC w Hc) as Ha.
  split.
  - intros Hx. split.
    + rewrite <-(handleList_elems TxList.DESC). apply sliceTo_within. by rewrite Hd.
    + rewrite <-(handleList_elems TxList.ASC). apply sliceTo_within. by rewrite Ha.
  - intros Hx. split; apply sliceTo_beyond; by rewrite ?Hd, ?Ha.
Qed.

Lemma Consistent_three : Consistent Sample.three.
Proof.
  unfold Sample.three, Sample.addAll. simpl.
  repeat apply Consistent_handleAdd. apply Consistent_empty.
Qed.

Lemma C8_topx_within_count_witness :
  (2 ≤ Count Sample.three →
     (∃ s, TopXWithHighGasPrice Sample.three 2 = Returns s ∧
           elems s = take (N.to_nat 2) (DescTxsByGasPrice (pool Sample.three))) ∧
     (∃ s, TopXWithLowGasPrice Sample.three 2 = Returns s ∧
           elems s = take (N.to_nat 2) (AscTxsByGasPrice (pool Sample.three)))) ∧
  (Count Sample.three < 2 →
     TopXWithHighGasPrice Sample.three 2 = Panics ∧
     TopXWithLowGasPrice Sample.three 2 = Panics).
Proof. apply (C8_topx_within_count Sample.three 2), Consistent_three. Defined.

Example top_two_high :
  TopXWithHighGasPrice Sample.three 2 = Returns (Some [2; 3]%positive).
Proof. vm_compute. reflexivity. Qed.

Example top_four_panics : TopXWithLowGasPrice Sample.three 4 = Panics.
Proof. vm_compute. reflexivity. Qed.

(** C10.  In a consistent pool with nothing in it, [SentFrom], [SentTo],
    [OlderThanX] and [FresherThanX] answer nil, whatever the scheduler;
    and [DuplicateTxs] answers nil for every hash that is not in the
    pool. *)
Theorem C10_nil_on_empty (deliver : ∀ A : Type, list A → list A)
    (now : Time) (w : World) (address : common.Address) (d : Duration) :
  Consistent w →
  (Count w = 0 →
     DescListTxs w = None ∧
     SentFrom deliver w address = Returns None ∧
     SentTo deliver w address = Returns None ∧
     OlderThanX deliver now w d = Returns None ∧
     FresherThanX deliver now w d = Returns None) ∧
  (∀ h, Exists w h = false → DuplicateTxs deliver w h = Returns None).
Proof.
  intros Hc. split.
  - intros Hn.
    assert (Hnil : DescListTxs w = None).
    { apply handleList_nil. pose proof (handleList_length TxList.DESC w Hc) as Hl.
      rewrite handleList_elems, Hn in Hl.
      destruct (DescTxsByGasPrice (pool w)); [done|simpl in Hl; lia]. }
    unfold SentFrom, SentTo, OlderThanX, FresherThanX. by rewrite Hnil.
  - intros h Hh. unfold DuplicateTxs, Get, handleGet.
    unfold Exists, handleExists in Hh. apply bool_decide_eq_false in Hh.
    destruct (Transactions (pool w) !! h) eqn:Hl; [|done].
    exfalso. apply Hh. by eexists.
Qed.

Lemma C10_nil_on_empty_witness :
  (Count Sample.empty = 0 →
     DescListTxs Sample.empty = None ∧
     SentFrom Sample.lifo Sample.empty Sample.A = Returns None ∧
     SentTo Sample.lifo Sample.empty Sample.A = Returns None ∧
     OlderThanX Sample.lifo 300 Sample.empty 5 = Returns None ∧
     FresherThanX Sample.lifo 300 Sample.empty 5 = Returns None) ∧
  (∀ h, Exists Sample.empty h = false →
     DuplicateTxs Sample.lifo Sample.empty h = Returns None).
Proof.
  apply (C10_nil_on_empty Sample.lifo 300%Z Sample.empty Sample.A 5%Z).
  apply Consistent_empty.
Defined.

(** ** The fan-out of the filtered queries *)

Lemma drain_cons v rest received mustReceive result :
  drain (v :: rest) received mustReceive result
    = if mustReceive <=? received + 1
      then Some (match v with Some tx => result ++ [tx] | None => result end)
      else drain rest (received + 1) mustReceive
             (match v with Some tx => result ++ [tx] | None => result end).
Proof. reflexivity. Qed.

Lemma drain_all chan received result :
  chan ≠ [] →
  drain chan received (received + N.of_nat (length chan)) result
    = Some (result ++ omap id chan).
Proof.
  revert received result.
  induction chan as [|v rest IH]; intros received result Hne; [done|].
  rewrite drain_cons. destruct rest as [|v' rest'].
  - rewrite (proj2 (N.leb_le _ _)) by (simpl; lia).
    destruct v; simpl; by rewrite ?app_nil_r.
  - rewrite (proj2 (N.leb_gt _ _)) by (simpl length; lia).
    replace (received + N.of_nat (length (v :: v' :: rest')))
      with (received + 1 + N.of_nat (length (v' :: rest'))) by (simpl length; lia).
    rewrite IH by done. destruct v; simpl; by rewrite <-?app_assoc.
Qed.

Lemma kept_filter (keep : MemPoolTx → bool) (m : Heap) (txs : list loc) :
  omap id ((λ tx, if keep (m tx) then Some tx else None) <$> txs)
    = filter (λ tx, keep (m tx) = true) txs.
Proof.
  induction txs as [|tx txs IH]; [done|].
  rewrite fmap_cons, filter_cons, <-IH.
  destruct (keep (m tx)); by case_decide.
Qed.

Lemma fanOut_filters (deliver : ∀ A : Type, list A → list A) keep m (txs : list loc) :
  (∀ A (l : list A), deliver A l ≡ₚ l) →
  txs ≠ [] →
  ∃ result, fanOut deliver keep m txs = Returns (Some result) ∧
            result ≡ₚ filter (λ tx, keep (m tx) = true) txs.
Proof.
  intros Hperm Hne. unfold fanOut. cbv zeta.
  set (sent := (λ tx, if keep (m tx) then Some tx else None) <$> txs).
  assert (Hlen : length (deliver _ sent) = length txs).
  { rewrite Hperm. unfold sent. by rewrite length_fmap. }
  pose proof (drain_all (deliver _ sent) 0 []) as Hdrain.
  rewrite Hlen, N.add_0_l in Hdrain. rewrite Hdrain.
  - eexists. split; [done|]. rewrite Hperm. subst sent. by rewrite kept_filter.
  - intros Hnil. rewrite Hnil in Hlen. by destruct txs.
Qed.

(** For every hash in a consistent pool, [DuplicateTxs] answers the
    records of the pool that [IsDuplicateOf] accepts against the target;
    with duplicate-of being same sender and same nonce, the target is
    one of them. *)
Lemma DuplicateTxs_keeps_target (deliver : ∀ A : Type, list A → list A) w h target :
  (∀ A (l : list A), deliver A l ≡ₚ l) →
  Consistent w →
  Transactions (pool w) !! h = Some target →
  ∃ result, DuplicateTxs deliver w h = Returns (Some result) ∧
    (∀ tx, tx ∈ result ↔
       stored (pool w) tx ∧
       From (mem w tx) = From (mem w target) ∧
       Nonce (mem w tx) = Nonce (mem w target)) ∧
    target ∈ result.
Proof.
  intros Hperm Hc Hh.
  pose proof (Consistent_SameRecords w Hc) as (_ & Hdesc & _).
  assert (Hin : target ∈ DescTxsByGasPrice (pool w)) by (apply Hdesc; by exists h).
  unfold DuplicateTxs, Get, handleGet, DescListTxs. rewrite Hh.
  destruct (handleList TxList.DESC w) as [txs|] eqn:Hl.
  - pose proof (handleList_elems TxList.DESC w) as He. rewrite Hl in He. simpl in He.
    subst txs.
    destruct (fanOut_filters deliver (λ r, IsDuplicateOf r (mem w target)) (mem w)
                (DescTxsByGasPrice (pool w)) Hperm) as (result & -> & Hres).
    { intros Hnil. rewrite Hnil in Hin. by apply elem_of_nil in Hin. }
    exists result. split; [done|].
    assert (Hmem : ∀ tx, tx ∈ result ↔
       stored (pool w) tx ∧
       From (mem w tx) = From (mem w target) ∧
       Nonce (mem w tx) = Nonce (mem w target)).
    { intros tx. rewrite Hres, list_elem_of_filter, Hdesc. unfold IsDuplicateOf.
      rewrite andb_true_iff, !N.eqb_eq. tauto. }
    split; [done|]. apply Hmem. split; [by exists h|done].
  - apply handleList_nil in Hl. rewrite Hl in Hin. by apply elem_of_nil in Hin.
Qed.

(** C7.  With the two sample records 0xa1 and 0xa2 of one sender and one
    nonce in the pool, [DuplicateTxs(0xa1)] answers both records: the
    target itself (pointer 2) is in the answer, which is not the
    singleton holding 0xa2 (pointer 3). *)
Theorem C7_duplicates_include_target :
  Get Sample.twins 0xa1 = Some 2%positive ∧
  DuplicateTxs (λ _ l, l) Sample.twins 0xa1 = Returns (Some [2; 3]%positive) ∧
  DuplicateTxs Sample.lifo Sample.twins 0xa1 = Returns (Some [3; 2]%positive) ∧
  DuplicateTxs (λ _ l, l) Sample.twins 0xa1 ≠ Returns (Some [3]%positive) ∧
  DuplicateTxs Sample.lifo Sample.twins 0xa1 ≠ Returns (Some [3]%positive).
Proof. split_and!; by vm_compute. Qed.

(** ** The prune goroutine *)

Lemma classify_hash m rpc pending queued tx :
  StatusHash (classify m rpc pending queued tx) = hashOf m tx.
Proof.
  unfold classify.
  destruct (IsPresentInCurrentPool m queued (hashOf m tx)); [done|].
  destruct (IsPresentInCurrentPool m pending (hashOf m tx)); [done|].
  destruct (IsUnstuck rpc (m tx)) as [[|]|]; done.
Qed.

Lemma stored_lookup w tx :
  Consistent w → stored (pool w) tx →
  Transactions (pool w) !! hashOf (mem w) tx = Some tx.
Proof. intros Hc [h Hh]. by rewrite (keyed w Hc h tx Hh). Qed.

Lemma collect_cons clock k v rest received txCount w :
  collect clock k (v :: rest) received txCount w
    = if (collectOne (clock k) v received txCount w).2
      then Some (collectOne (clock k) v received txCount w).1.1
      else collect clock (S k) rest
             (collectOne (clock k) v received txCount w).1.2 txCount
             (collectOne (clock k) v received txCount w).1.1.
Proof.
  simpl. by destruct (collectOne (clock k) v received txCount w) as [[w1 r1] [|]].
Qed.

Lemma collectOne_stuck now v received txCount w :
  Status v = STUCK →
  collectOne now v received txCount w = (w, received + 1, txCount <=? received + 1).
Proof. intros Hs. unfold collectOne. by rewrite Hs. Qed.

Lemma collectOne_unstuck now v received txCount w tx :
  Status v = UNSTUCK →
  Transactions (pool w) !! StatusHash v = Some tx →
  collectOne now v received txCount w
    = (handOver (txRemover now (StatusHash v) w).1 tx,
       received + 1, txCount <=? received + 1).
Proof. intros Hs Hh. unfold collectOne, txRemover. by rewrite Hs, Hh. Qed.

(** The world after one unstuck transaction was removed and handed over. *)
Lemma handed_over now h w tx :
  Transactions (pool w) !! h = Some tx →
  let w2 := handOver (txRemover now h w).1 tx in
  Transactions (pool w2) = delete h (Transactions (pool w)) ∧
  PendingPool (pool w2) = PendingPool (pool w) ++ [tx] ∧
  IsPruning (pool w2) = IsPruning (pool w) ∧
  PubSub (pool w2) = PubSub (pool w) ++ [{| topic := ExitTopic; payload := None |}] ∧
  (∀ p, hashOf (mem w2) p = hashOf (mem w) p).
Proof.
  intros Hh. unfold txRemover. rewrite Hh. simpl. rewrite lookup_delete_eq.
  split_and!; try done.
  intros p. unfold stampUnstuck. by apply hashOf_alter.
Qed.

Lemma unstuckHashes_cons v rest :
  unstuckHashes (v :: rest)
    = match Status v with
      | UNSTUCK => StatusHash v :: unstuckHashes rest
      | STUCK => unstuckHashes rest
      end.
Proof.
  unfold unstuckHashes. rewrite filter_cons.
  destruct (Status v); by case_decide.
Qed.

Lemma collect_all clock chan :
  ∀ k received w,
    Consistent w →
    NoDup (StatusHash <$> chan) →
    (∀ v, v ∈ chan → is_Some (Transactions (pool w) !! StatusHash v)) →
    chan ≠ [] →
    ∃ w', collect clock k chan received (received + N.of_nat (length chan)) w = Some w' ∧
      Consistent w' ∧
      (∀ p, hashOf (mem w') p = hashOf (mem w) p) ∧
      (∀ h, Transactions (pool w') !! h
            = if decide (h ∈ unstuckHashes chan) then None
              else Transactions (pool w) !! h) ∧
      PendingPool (pool w')
        = PendingPool (pool w)
            ++ omap (λ h, Transactions (pool w) !! h) (unstuckHashes chan) ∧
      IsPruning (pool w') = IsPruning (pool w) ∧
      length (PubSub (pool w'))
        = (length (PubSub (pool w)) + length (unstuckHashes chan))%nat.
Proof.
  induction chan as [|v rest IH]; intros k received w Hc Hnd Hpresent Hne; [done|].
  rewrite fmap_cons in Hnd. apply list.NoDup_cons in Hnd as [Hv Hnd].
  rewrite collect_cons, unstuckHashes_cons.
  destruct (Status v) eqn:Hs.
  - (* a stuck transaction: counted, nothing else *)
    rewrite collectOne_stuck by done. cbn [fst snd].
    destruct rest as [|v' rest'].
    + rewrite (proj2 (N.leb_le _ _)) by (simpl; lia).
      exists w. split_and!; try done.
      simpl. by rewrite app_nil_r.
    + rewrite (proj2 (N.leb_gt _ _)) by (simpl length; lia).
      replace (received + N.of_nat (length (v :: v' :: rest')))
        with (received + 1 + N.of_nat (length (v' :: rest'))) by (simpl length; lia).
      apply IH; try done. intros u Hu. apply Hpresent. by right.
  - (* an unstuck transaction: removed and handed over *)
    destruct (Hpresent v) as [tx Htx]; [by left|].
    rewrite (collectOne_unstuck _ _ _ _ _ tx) by done. cbn [fst snd].
    pose proof (handed_over (clock k) (StatusHash v) w tx Htx) as Hw2.
    pose proof (Consistent_collectOne (clock k) v received
                  (received + N.of_nat (length (v :: rest))) w Hc) as Hc2.
    rewrite (collectOne_unstuck _ _ _ _ _ tx) in Hc2 by done. cbn [fst snd] in Hc2.
    set (w2 := handOver (txRemover (clock k) (StatusHash v) w).1 tx) in *.
    destruct Hw2 as (HT & HP & HI & HS & HH).
    destruct rest as [|v' rest'].
    + rewrite (proj2 (N.leb_le _ _)) by (simpl; lia).
      exists w2. split_and!; try done.
      * intros h. rewrite HT. case_decide as Hin.
        -- apply elem_of_cons in Hin as [->|Hin]; [apply lookup_delete_eq|].
           by apply elem_of_nil in Hin.
        -- apply lookup_delete_ne. intros <-. apply Hin. by left.
      * rewrite HP. simpl. by rewrite Htx.
      * rewrite HS, length_app. simpl. done.
    + rewrite (proj2 (N.leb_gt _ _)) by (simpl length; lia).
      replace (received + N.of_nat (length (v :: v' :: rest')))
        with (received + 1 + N.of_nat (length (v' :: rest'))) by (simpl length; lia).
      assert (Hother : ∀ h, h ∈ unstuckHashes (v' :: rest') → h ≠ StatusHash v).
      { intros h Hin ->. apply Hv. unfold unstuckHashes in Hin.
        apply list_elem_of_fmap in Hin as (u & -> & Hu%list_elem_of_filter).
        apply list_elem_of_fmap. exists u. split; [done|]. apply Hu. }
      destruct (IH (S k) (received + 1) w2) as (w' & Hrun & Hc' & HH' & HT' & HP' & HI' & HS');
        try done.
      { intros u Hu. rewrite HT, lookup_delete_ne.
        - apply Hpresent. by right.
        - intros Heq. apply Hv. rewrite Heq. by apply list_elem_of_fmap_2. }
      exists w'. split_and!; try done.
      * intros p. by rewrite HH', HH.
      * intros h. rewrite HT', HT. case_decide as Hin.
        -- rewrite decide_True; [done|by right].
        -- destruct (decide (h = StatusHash v)) as [->|Hne'].
           ++ rewrite decide_True by (by left). apply lookup_delete_eq.
           ++ rewrite decide_False, lookup_delete_ne; [done|congruence|].
              intros [->|?]%elem_of_cons; done.
      * rewrite HP', HP, <-app_assoc. f_equal. simpl. rewrite Htx. f_equal.
        apply list_omap_ext, Forall2_same_length_lookup_2; [done|].
        intros i h h' Hi Hi'. rewrite Hi in Hi'. injection Hi' as <-.
        change (Transactions (pool (txRemover (clock k) (StatusHash v) w).1))
          with (Transactions (pool w2)).
        rewrite HT, lookup_delete_ne; [done|].
        intros Heq. eapply Hother; [|by symmetry]. by eapply list_elem_of_lookup_2.
      * by rewrite HI'.
      * rewrite HS', HS, length_app. simpl. lia.
Qed.

Lemma handed_filter w rpc pending queued (l : list loc) :
  Consistent w →
  (∀ tx, tx ∈ l → stored (pool w) tx) →
  omap (λ h, Transactions (pool w) !! h)
       (unstuckHashes (classify (mem w) rpc pending queued <$> l))
    = filter (λ tx, Status (classify (mem w) rpc pending queued tx) = UNSTUCK) l.
Proof.
  intros Hc. induction l as [|tx l IH]; intros Hst; [done|].
  rewrite fmap_cons, unstuckHashes_cons, filter_cons.
  assert (Hrest : ∀ p, p ∈ l → stored (pool w) p) by (intros p ?; apply Hst; by right).
  destruct (Status (classify (mem w) rpc pending queued tx)) eqn:Hs.
  - rewrite decide_False by done. by apply IH.
  - rewrite decide_True by done. cbn [omap list_omap].
    rewrite classify_hash, stored_lookup; [|done|apply Hst; by left].
    f_equal. by apply IH.
Qed.

Lemma unstuck_count (m : Heap) rpc pending queued (l : list loc) :
  length (unstuckHashes (classify m rpc pending queued <$> l))
    = length (filter (λ tx, Status (classify m rpc pending queued tx) = UNSTUCK) l).
Proof.
  induction l as [|tx l IH]; [done|].
  rewrite fmap_cons, unstuckHashes_cons, filter_cons.
  destruct (Status (classify m rpc pending queued tx)) eqn:Hs.
  - by rewrite decide_False.
  - rewrite decide_True by done. simpl. by rewrite IH.
Qed.

Lemma snapshot_hashes_NoDup w rpc pending queued :
  Consistent w →
  NoDup (StatusHash <$>
           (classify (mem w) rpc pending queued <$> DescTxsByGasPrice (pool w))).
Proof.
  intros Hc. pose proof (Consistent_SameRecords w Hc) as (_ & Hdesc & _ & Hnd & _).
  rewrite <-list_fmap_compose. apply NoDup_fmap_2_strong; [|done].
  intros tx tx' Htx%Hdesc Htx'%Hdesc. simpl. rewrite !classify_hash. intros Heq.
  pose proof (stored_lookup w tx Hc Htx) as H1.
  pose proof (stored_lookup w tx' Hc Htx') as H2.
  rewrite Heq in H1. congruence.
Qed.

(** C6.  A prune run on a consistent, non-empty pool, whatever order the
    worker pool delivers in: each snapshotted transaction is STUCK when
    its hash is in the upstream queued view, else UNSTUCK when it is in
    the upstream pending view, else STUCK on an RPC error and otherwise
    UNSTUCK exactly when the probe said yes; a message reporting UNSTUCK
    goes through [Remove] and, when that returned a record, the record is
    handed to the pending pool, while a STUCK one changes nothing; the
    goroutine finishes;
    the transactions classified UNSTUCK, and no others, are gone from the
    map and both lists and were handed to the pending pool, one exit
    publication each; the others stay; the latch is released. *)
Theorem C6_prune_promotes_unstuck (deliver : ∀ A : Type, list A → list A)
    (clock : nat → Time) (rpc : common.Address → option N)
    (pending queued : Upstream) (w : World) :
  (∀ A (l : list A), deliver A l ≡ₚ l) →
  Consistent w →
  DescTxsByGasPrice (pool w) ≠ [] →
  let status tx := Status (classify (mem w) rpc pending queued tx) in
  (∀ tx, status tx =
     if IsPresentInCurrentPool (mem w) queued (hashOf (mem w) tx) then STUCK
     else if IsPresentInCurrentPool (mem w) pending (hashOf (mem w) tx) then UNSTUCK
     else match IsUnstuck rpc (mem w tx) with
          | None => STUCK
          | Some probe => if probe then UNSTUCK else STUCK
          end) ∧
  (∀ now v received txCount w0,
     (collectOne now v received txCount w0).1.1
       = match Status v with
         | STUCK => w0
         | UNSTUCK =>
             match (Remove now (StatusHash v) w0).2 with
             | Some removed => handOver (Remove now (StatusHash v) w0).1 removed
             | None => (Remove now (StatusHash v) w0).1
             end
         end) ∧
  ∃ w', pruneBody deliver clock rpc pending queued w = Some w' ∧
    (∀ tx, tx ∈ DescTxsByGasPrice (pool w) → status tx = UNSTUCK →
       ¬ stored (pool w') tx ∧
       (tx ∉ AscTxsByGasPrice (pool w')) ∧
       (tx ∉ DescTxsByGasPrice (pool w')) ∧
       tx ∈ PendingPool (pool w')) ∧
    (∀ tx, tx ∈ DescTxsByGasPrice (pool w) → status tx = STUCK →
       stored (pool w') tx ∧
       tx ∈ AscTxsByGasPrice (pool w') ∧
       tx ∈ DescTxsByGasPrice (pool w')) ∧
    (∀ tx, stored (pool w') tx → stored (pool w) tx) ∧
    (∃ handed,
       PendingPool (pool w') = PendingPool (pool w) ++ handed ∧
       handed ≡ₚ filter (λ tx, status tx = UNSTUCK) (DescTxsByGasPrice (pool w)) ∧
       length (PubSub (pool w')) = (length (PubSub (pool w)) + length handed)%nat) ∧
    IsPruning (pool w') = false.
Proof.
  intros Hperm Hc Hne status. split.
  { intros tx. subst status. unfold classify. simpl.
    destruct (IsPresentInCurrentPool (mem w) queued (hashOf (mem w) tx)); [done|].
    destruct (IsPresentInCurrentPool (mem w) pending (hashOf (mem w) tx)); [done|].
    destruct (IsUnstuck rpc (mem w tx)) as [[|]|]; done. }
  split.
  { intros now v received txCount w0. unfold collectOne, Remove.
    destruct (Status v); [done|].
    by destruct (txRemover now (StatusHash v) w0) as [w1 [removed|]]. }
  pose proof (Consistent_SameRecords w Hc) as (_ & Hdesc & _).
  unfold pruneBody, TxList.get. cbv zeta.
  set (sent := classify (mem w) rpc pending queued <$> DescTxsByGasPrice (pool w)).
  set (arrival := deliver TxStatus sent).
  assert (Harr : arrival ≡ₚ sent) by apply Hperm.
  assert (Hlen : length arrival = length (DescTxsByGasPrice (pool w))).
  { rewrite Harr. unfold sent. by rewrite length_fmap. }
  destruct (collect_all clock arrival 0 0 w Hc)
    as (w' & Hrun & Hc' & HH & HT & HP & HI & HS).
  { rewrite Harr. by apply snapshot_hashes_NoDup. }
  { intros v. rewrite Harr. unfold sent.
    intros (tx & -> & Htx)%list_elem_of_fmap.
    rewrite classify_hash, stored_lookup; [by eexists|done|by apply Hdesc]. }
  { intros Hnil. rewrite Hnil in Hlen. by destruct (DescTxsByGasPrice (pool w)). }
  rewrite Hlen, N.add_0_l in Hrun. rewrite Hrun. simpl.
  exists (releaseLatch w'). split; [done|].
  pose proof (Consistent_SameRecords w' Hc') as (Hasc' & Hdesc' & _).
  (* the hashes reported unstuck are those of the unstuck snapshot entries *)
  assert (Hunstuck : ∀ tx, tx ∈ DescTxsByGasPrice (pool w) →
            (hashOf (mem w) tx ∈ unstuckHashes arrival ↔ status tx = UNSTUCK)).
  { intros tx Htx. unfold unstuckHashes. rewrite Harr. unfold sent. split.
    - intros (v & Hv & [Hs (tx' & -> & Htx')%list_elem_of_fmap]%list_elem_of_filter)
        %list_elem_of_fmap.
      rewrite classify_hash in Hv.
      pose proof (stored_lookup w tx Hc (proj1 (Hdesc tx) Htx)) as H1.
      pose proof (stored_lookup w tx' Hc (proj1 (Hdesc tx') Htx')) as H2.
      rewrite Hv in H1. assert (tx = tx') as -> by congruence. done.
    - intros Hs. apply list_elem_of_fmap.
      exists (classify (mem w) rpc pending queued tx).
      split; [by rewrite classify_hash|].
      apply list_elem_of_filter. split; [done|]. by apply list_elem_of_fmap_2. }
  assert (Hhanded : omap (λ h, Transactions (pool w) !! h) (unstuckHashes arrival)
            ≡ₚ filter (λ tx, status tx = UNSTUCK) (DescTxsByGasPrice (pool w))).
  { unfold unstuckHashes. rewrite Harr. unfold sent.
    rewrite <-(handed_filter w rpc pending queued _ Hc) by (intros tx; apply Hdesc).
    done. }
  split_and!.
  - intros tx Htx Hs.
    assert (Hgone : ¬ stored (pool w') tx).
    { intros [h Hh]. pose proof (keyed w' Hc' h tx Hh) as Hk.
      rewrite HH in Hk. subst h. rewrite HT, decide_True in Hh; [done|].
      by apply Hunstuck. }
    split_and!; simpl.
    + done.
    + by rewrite Hasc'.
    + by rewrite Hdesc'.
    + rewrite HP, elem_of_app. right. rewrite Hhanded.
      apply list_elem_of_filter. done.
  - intros tx Htx Hs.
    assert (Hkept : stored (pool w') tx).
    { exists (hashOf (mem w) tx). rewrite HT, decide_False.
      - apply stored_lookup; [done|by apply Hdesc].
      - intros Hin%Hunstuck; [|done]. congruence. }
    split_and!; simpl; [done|by apply Hasc'|by apply Hdesc'].
  - intros tx [h Hh]. simpl in Hh. rewrite HT in Hh. case_decide; [done|]. by exists h.
  - eexists. simpl. split_and!; [exact HP|exact Hhanded|].
    rewrite HS, Hhanded. f_equal. subst status. cbv beta.
    rewrite <-unstuck_count. unfold unstuckHashes. by rewrite Harr.
  - done.
Qed.

Lemma Consistent_mixed : Consistent Sample.mixed.
Proof.
  unfold Sample.mixed, Sample.addAll. simpl.
  repeat apply Consistent_handleAdd. apply Consistent_empty.
Qed.

Lemma C6_prune_promotes_unstuck_witness :
  ∃ w', pruneBody Sample.lifo Sample.noon Sample.noRPC
          Sample.upPending Sample.upQueued Sample.mixed = Some w' ∧
        4%positive ∈ PendingPool (pool w') ∧
        ¬ stored (pool w') 4%positive ∧
        stored (pool w') 1%positive ∧
        IsPruning (pool w') = false.
Proof.
  destruct (C6_prune_promotes_unstuck Sample.lifo Sample.noon Sample.noRPC
              Sample.upPending Sample.upQueued Sample.mixed)
    as (_ & _ & w' & Hrun & Hunstuck & Hstuck & _ & _ & Hlatch).
  - intros A l. apply reverse_Permutation.
  - apply Consistent_mixed.
  - vm_compute. discriminate.
  - exists w'. split; [exact Hrun|].
    destruct (Hunstuck 4%positive) as (Hgone & _ & _ & Hhanded).
    { vm_compute. apply list_elem_of_here. }
    { vm_compute. reflexivity. }
    destruct (Hstuck 1%positive) as (Hkept & _).
    { vm_compute. apply list_elem_of_further, list_elem_of_here. }
    { vm_compute. reflexivity. }
    repeat split; assumption.
Defined.

Example prune_sample_run :
  (λ w', (DescTxsByGasPrice (pool w'), PendingPool (pool w'), IsPruning (pool w')))
    <$> pruneBody Sample.lifo Sample.noon Sample.noRPC
          Sample.upPending Sample.upQueued Sample.mixed
  = Some ([1%positive], [4%positive], false).
Proof. vm_compute. reflexivity. Qed.

(** ** Slices handed to callers *)

Lemma place_keeps grow a0 l0 A a l :
  A !! a = Some l → a ≠ a0 →
  (place grow a0 l0 A).1 !! a = Some l ∧ a ≠ (place grow a0 l0 A).2.
Proof.
  intros Ha Hne. unfold place. destruct grow; simpl.
  - assert (a ≠ fresh (dom A)).
    { intros ->. apply (is_fresh (dom A)). apply elem_of_dom. by eexists. }
    by rewrite lookup_insert_ne.
  - by rewrite lookup_insert_ne.
Qed.

Lemma Held_install growAsc growDesc s' b a l :
  Held b a l → Held (install growAsc growDesc s' b) a l.
Proof.
  intros (Ha & Hasc & Hdesc). unfold install.
  pose proof (place_keeps growAsc (ascArr b)
                (AscTxsByGasPrice (pool (world s'))) (arrays b) a l Ha Hasc) as [H1 H1'].
  destruct (place growAsc (ascArr b) (AscTxsByGasPrice (pool (world s'))) (arrays b))
    as [A1 a1]; simpl in *.
  pose proof (place_keeps growDesc (descArr b)
                (DescTxsByGasPrice (pool (world s'))) A1 a l H1 Hdesc) as [H2 H2'].
  destruct (place growDesc (descArr b) (DescTxsByGasPrice (pool (world s'))) A1)
    as [A2 a2]; simpl in *.
  done.
Qed.

Lemma Held_ListTxs o b a l : Held b a l → Held (ListTxs o b).1 a l.
Proof.
  intros (Ha & Hasc & Hdesc). unfold ListTxs.
  destruct (length (default [] (arrays b !! backing o b)) =? 0)%nat; [done|].
  split; [|done]. simpl. rewrite lookup_insert_ne; [done|].
  intros Heq. apply (is_fresh (dom (arrays b))). rewrite Heq. apply elem_of_dom. by eexists.
Qed.

Lemma Held_bstep b b' a l : bstep b b' → Held b a l → Held b' a l.
Proof.
  intros [b0 s' growAsc growDesc _|b0 o] Hheld.
  - by apply Held_install.
  - by apply Held_ListTxs.
Qed.

Lemma Held_run b b' a l : rtc bstep b b' → Held b a l → Held b' a l.
Proof.
  induction 1 as [|b1 b2 b3 Hstep _ IH]; [done|].
  intros Hheld. apply IH. by eapply Held_bstep.
Qed.

(** C9.  The list request answers nil when the list asked for is empty.
    Otherwise it answers a newly allocated array, different from the
    pool's own two, holding the elements of that list in order; the pool
    itself is as before; and whatever the pool does afterwards (requests
    served, prunes, further list requests, lists rewritten in place or
    regrown), that array keeps the same elements. *)
Theorem C9_list_reply_is_a_private_copy (o : TxList.Order) (b : Backed) :
  Coupled b →
  let l := match o with
           | TxList.ASC => AscTxsByGasPrice (pool (world (sys b)))
           | TxList.DESC => DescTxsByGasPrice (pool (world (sys b)))
           end in
  (l = [] → handleList o (world (sys b)) = None ∧ ListTxs o b = (b, None)) ∧
  (l ≠ [] →
     handleList o (world (sys b)) = Some l ∧
     ∃ copied,
       (ListTxs o b).2 = Some copied ∧
       arrays b !! copied = None ∧
       copied ≠ ascArr b ∧ copied ≠ descArr b ∧
       sys (ListTxs o b).1 = sys b ∧
       arrays (ListTxs o b).1 !! copied = Some l ∧
       (∀ a, a ≠ copied → arrays (ListTxs o b).1 !! a = arrays b !! a) ∧
       ∀ b', rtc bstep (ListTxs o b).1 b' → arrays b' !! copied = Some l).
Proof.
  intros [Hasc Hdesc] l.
  assert (Hsrc : arrays b !! backing o b = Some l).
  { subst l. by destruct o. }
  split.
  - intros Hl. split; [by apply handleList_nil|].
    unfold ListTxs. by rewrite Hsrc, Hl.
  - intros Hl. split.
    { pose proof (handleList_elems o (world (sys b))) as He.
      destruct (handleList o (world (sys b))) as [l'|] eqn:Hh.
      - simpl in He. by rewrite He.
      - apply handleList_nil in Hh. done. }
    unfold ListTxs. rewrite Hsrc. simpl.
    destruct l as [|tx l'] eqn:El; [done|]. simpl.
    set (copied := fresh (dom (arrays b))).
    assert (Hfresh : arrays b !! copied = None).
    { apply not_elem_of_dom, is_fresh. }
    assert (Hne1 : copied ≠ ascArr b) by (intros Heq; by rewrite Heq, Hasc in Hfresh).
    assert (Hne2 : copied ≠ descArr b) by (intros Heq; by rewrite Heq, Hdesc in Hfresh).
    exists copied. split_and!; try done.
    + by rewrite lookup_insert_eq.
    + intros a Ha. by rewrite lookup_insert_ne.
    + intros b' Hrun.
      eapply (Held_run _ b' copied (tx :: l')) in Hrun; [apply Hrun|].
      split_and!; simpl; [by rewrite lookup_insert_eq|done..].
Qed.

Lemma C9_list_reply_is_a_private_copy_witness :
  (AscTxsByGasPrice (pool (world (sys Sample.backed))) = [] →
     handleList TxList.ASC (world (sys Sample.backed)) = None ∧
     ListTxs TxList.ASC Sample.backed = (Sample.backed, None)) ∧
  (AscTxsByGasPrice (pool (world (sys Sample.backed))) ≠ [] →
     handleList TxList.ASC (world (sys Sample.backed))
       = Some (AscTxsByGasPrice (pool (world (sys Sample.backed)))) ∧
     ∃ copied,
       (ListTxs TxList.ASC Sample.backed).2 = Some copied ∧
       arrays Sample.backed !! copied = None ∧
       copied ≠ ascArr Sample.backed ∧ copied ≠ descArr Sample.backed ∧
       sys (ListTxs TxList.ASC Sample.backed).1 = sys Sample.backed ∧
       arrays (ListTxs TxList.ASC Sample.backed).1 !! copied
         = Some (AscTxsByGasPrice (pool (world (sys Sample.backed)))) ∧
       (∀ a, a ≠ copied →
          arrays (ListTxs TxList.ASC Sample.backed).1 !! a = arrays Sample.backed !! a) ∧
       ∀ b', rtc bstep (ListTxs TxList.ASC Sample.backed).1 b' →
         arrays b' !! copied
           = Some (AscTxsByGasPrice (pool (world (sys Sample.backed))))).
Proof.
  apply (C9_list_reply_is_a_private_copy TxList.ASC Sample.backed).
  split; vm_compute; reflexivity.
Defined.

(** The pool rewrites its own array when a record is added after the
    list was handed out; the caller's copy still reads as before. *)
Example copy_survives_add :
  let b1 := (ListTxs TxList.ASC Sample.backed).1 in
  let s2 := {| world := (serve 100 (AddRequest 4) (world (sys b1))).1; jobs := [] |} in
  let b2 := install false false s2 b1 in
  (ListTxs TxList.ASC Sample.backed).2 = Some 3%positive ∧
  arrays b1 !! ascArr b1 = Some [1; 3; 2]%positive ∧
  arrays b2 !! ascArr b2 = Some [1; 4; 3; 2]%positive ∧
  arrays b2 !! 3%positive = Some [1; 3; 2]%positive.
Proof. vm_compute. repeat split; reflexivity. Qed.

(** ** Further properties of the pool *)

Lemma handleGet_lookup h w : handleGet h w = Transactions (pool w) !! h.
Proof. unfold handleGet. by destruct (Transactions (pool w) !! h). Qed.

Lemma Consistent_absent w tx :
  Consistent w →
  Transactions (pool w) !! hashOf (mem w) tx = None →
  tx ∉ AscTxsByGasPrice (pool w).
Proof.
  intros Hc Hfree Hin.
  apply (Consistent_SameRecords w Hc) in Hin.
  by rewrite (stored_lookup w tx Hc Hin) in Hfree.
Qed.

Lemma Remove_insertAsc m tx l :
  tx ∉ l → TxList.Remove (TxList.insertAsc m tx l) tx = l.
Proof.
  induction l as [|y l IH]; simpl; intros Hn.
  - by rewrite decide_True.
  - apply not_elem_of_cons in Hn as [Hne Hn].
    destruct (price m y <=? price m tx); simpl.
    + rewrite decide_False by done. by rewrite IH.
    + by rewrite decide_True.
Qed.

Lemma Remove_insertDesc m tx l :
  tx ∉ l → TxList.Remove (TxList.insertDesc m tx l) tx = l.
Proof.
  induction l as [|y l IH]; simpl; intros Hn.
  - by rewrite decide_True.
  - apply not_elem_of_cons in Hn as [Hne Hn].
    destruct (price m tx <? price m y); simpl.
    + rewrite decide_False by done. by rewrite IH.
    + by rewrite decide_True.
Qed.

Lemma Consistent_single : Consistent Sample.single.
Proof.
  unfold Sample.single, Sample.addAll. simpl.
  repeat apply Consistent_handleAdd. apply Consistent_empty.
Qed.

(** X1.  In a consistent pool [Exists] and [Get] agree; the pointer
    [Get] returns leads to a record of the hash asked for and is listed
    by both [AscListTxs] and [DescListTxs]; and each listed pointer is
    what [Get] returns for the hash of its record. *)
Theorem X1_lookup_agrees_with_listings (w : World) (h : common.Hash) :
  Consistent w →
  (Exists w h = true ↔ ∃ tx, Get w h = Some tx) ∧
  (Exists w h = false ↔ Get w h = None) ∧
  (∀ tx, Get w h = Some tx →
     Hash (mem w tx) = h ∧
     tx ∈ elems (AscListTxs w) ∧ tx ∈ elems (DescListTxs w)) ∧
  (∀ tx, tx ∈ elems (AscListTxs w) ∨ tx ∈ elems (DescListTxs w) →
     Get w (Hash (mem w tx)) = Some tx ∧ Exists w (Hash (mem w tx)) = true).
Proof.
  intros Hc. pose proof (Consistent_SameRecords w Hc) as (Hasc & Hdesc & _).
  unfold Exists, Get, AscListTxs, DescListTxs, handleExists.
  rewrite !handleList_elems. setoid_rewrite handleGet_lookup.
  split_and!.
  - rewrite bool_decide_eq_true. by unfold is_Some.
  - rewrite bool_decide_eq_false, <-eq_None_not_Some. done.
  - intros tx Hh. split_and!.
    + apply (keyed w Hc h tx Hh).
    + apply Hasc. by exists h.
    + apply Hdesc. by exists h.
  - intros tx Hin.
    assert (Hst : stored (pool w) tx) by (destruct Hin as [?%Hasc|?%Hdesc]; done).
    pose proof (stored_lookup w tx Hc Hst) as Hl. unfold hashOf in Hl.
    split; [done|]. apply bool_decide_eq_true. by eexists.
Qed.

Lemma X1_lookup_agrees_with_listings_witness :
  (Exists Sample.three 0xa1 = true ↔ ∃ tx, Get Sample.three 0xa1 = Some tx) ∧
  (Exists Sample.three 0xa1 = false ↔ Get Sample.three 0xa1 = None) ∧
  (∀ tx, Get Sample.three 0xa1 = Some tx →
     Hash (mem Sample.three tx) = 0xa1 ∧
     tx ∈ elems (AscListTxs Sample.three) ∧ tx ∈ elems (DescListTxs Sample.three)) ∧
  (∀ tx, tx ∈ elems (AscListTxs Sample.three) ∨ tx ∈ elems (DescListTxs Sample.three) →
     Get Sample.three (Hash (mem Sample.three tx)) = Some tx ∧
     Exists Sample.three (Hash (mem Sample.three tx)) = true).
Proof. apply (X1_lookup_agrees_with_listings Sample.three 0xa1), Consistent_three. Defined.

(** X2.  In a consistent pool [Count] is the number of keys of the map
    and the length of either listing, and a listing is nil exactly when
    the count is zero.  [Add] raises the count by one when it answers
    true and leaves it otherwise; [Remove] lowers it by one when it
    returns a record and leaves it otherwise. *)
Theorem X2_count_follows_the_store (now : Time) (tx : loc) (h : common.Hash)
    (w : World) :
  Consistent w →
  Count w = N.of_nat (size (Transactions (pool w))) ∧
  N.of_nat (length (elems (AscListTxs w))) = Count w ∧
  N.of_nat (length (elems (DescListTxs w))) = Count w ∧
  (AscListTxs w = None ↔ Count w = 0) ∧
  (DescListTxs w = None ↔ Count w = 0) ∧
  Count (Add now tx w).1 = (if (Add now tx w).2 then Count w + 1 else Count w) ∧
  (if (Remove now h w).2 is Some _
   then Count w = Count (Remove now h w).1 + 1
   else Count (Remove now h w).1 = Count w).
Proof.
  intros Hc. pose proof (Consistent_SameRecords w Hc) as (Hasc & _ & _ & _ & Hla & Hld).
  pose proof (handleList_length TxList.ASC w Hc) as Ha.
  pose proof (handleList_length TxList.DESC w Hc) as Hd.
  split_and!; try done.
  - unfold Count, handleCount, TxList.len. by rewrite Hla.
  - unfold AscListTxs. rewrite handleList_nil. unfold Count, handleCount, TxList.len.
    destruct (AscTxsByGasPrice (pool w)); simpl; split; (done || lia).
  - unfold DescListTxs. rewrite handleList_nil. rewrite <-Hd, handleList_elems.
    destruct (DescTxsByGasPrice (pool w)); simpl; split; (done || lia).
  - unfold Add, handleAdd, Count, handleCount, TxList.len.
    destruct (Transactions (pool w) !! hashOf (mem w) tx); simpl; [done|].
    rewrite insertAsc_perm. simpl. lia.
  - unfold Remove, txRemover, Count, handleCount, TxList.len.
    destruct (Transactions (pool w) !! h) as [tx'|] eqn:Hh; simpl; [|done].
    assert (Hin : tx' ∈ AscTxsByGasPrice (pool w)) by (apply Hasc; by exists h).
    rewrite (Remove_perm _ _ Hin) at 1. simpl. lia.
Qed.

Lemma X2_count_follows_the_store_witness :
  Count Sample.three = N.of_nat (size (Transactions (pool Sample.three))) ∧
  N.of_nat (length (elems (AscListTxs Sample.three))) = Count Sample.three ∧
  N.of_nat (length (elems (DescListTxs Sample.three))) = Count Sample.three ∧
  (AscListTxs Sample.three = None ↔ Count Sample.three = 0) ∧
  (DescListTxs Sample.three = None ↔ Count Sample.three = 0) ∧
  Count (Add 300 4%positive Sample.three).1
    = (if (Add 300 4%positive Sample.three).2
       then Count Sample.three + 1 else Count Sample.three) ∧
  (if (Remove 300 0xa1 Sample.three).2 is Some _
   then Count Sample.three = Count (Remove 300 0xa1 Sample.three).1 + 1
   else Count (Remove 300 0xa1 Sample.three).1 = Count Sample.three).
Proof.
  apply (X2_count_follows_the_store 300%Z 4%positive 0xa1 Sample.three), Consistent_three.
Defined.

(** X3.  In a consistent pool, adding a record whose hash is not stored
    and then removing that hash returns the same pointer and puts the
    map and both sorted lists back exactly as they were; latch and
    pending pool are untouched; the publishers were called twice,
    [PublishAdded] with the record as [Add] stamped it ([QueuedAt] the
    time of the add, [Pool] "queued", [UnstuckAt] not yet written) and
    [PublishRemoved] with nil; afterwards the record has [QueuedAt] the
    time of the add, [UnstuckAt] the time of the removal, [Pool]
    "queued", its other fields as before, and no other record was
    written. *)
Theorem X3_add_then_remove_restores (now now' : Time) (tx : loc) (w : World) :
  Consistent w →
  Transactions (pool w) !! hashOf (mem w) tx = None →
  let h := hashOf (mem w) tx in
  let w1 := (Add now tx w).1 in
  let w2 := (Remove now' h w1).1 in
  (Add now tx w).2 = true ∧
  (Remove now' h w1).2 = Some tx ∧
  Transactions (pool w2) = Transactions (pool w) ∧
  AscTxsByGasPrice (pool w2) = AscTxsByGasPrice (pool w) ∧
  DescTxsByGasPrice (pool w2) = DescTxsByGasPrice (pool w) ∧
  IsPruning (pool w2) = IsPruning (pool w) ∧
  PendingPool (pool w2) = PendingPool (pool w) ∧
  PubSub (pool w2)
    = PubSub (pool w)
        ++ [{| topic := EntryTopic; payload := Some (markQueued now (mem w tx)) |};
            {| topic := ExitTopic; payload := None |}] ∧
  mem w2 tx = markUnstuck now' (markQueued now (mem w tx)) ∧
  QueuedAt (mem w2 tx) = now ∧
  UnstuckAt (mem w2 tx) = now' ∧
  Pool (mem w2 tx) = "queued"%string ∧
  PendingAt (mem w2 tx) = PendingAt (mem w tx) ∧
  identity (mem w2 tx) = identity (mem w tx) ∧
  (∃ r, PubSub (pool w2) !! length (PubSub (pool w))
          = Some {| topic := EntryTopic; payload := Some r |} ∧
        QueuedAt r = now ∧ Pool r = "queued"%string ∧
        UnstuckAt r = UnstuckAt (mem w tx) ∧
        PendingAt r = PendingAt (mem w tx) ∧
        identity r = identity (mem w tx)) ∧
  (∀ p, p ≠ tx → mem w2 p = mem w p).
Proof.
  intros Hc Hfree h w1 w2.
  pose proof (Consistent_absent w tx Hc Hfree) as Hnin.
  assert (Hnin' : tx ∉ DescTxsByGasPrice (pool w)).
  { destruct Hc as [_ _ _ ->]. by rewrite elem_of_reverse. }
  subst w2 w1 h. unfold Add, Remove, handleAdd. rewrite Hfree. simpl.
  assert (Hh : hashOf (alter (markQueued now) tx (mem w)) tx = hashOf (mem w) tx)
    by (by apply hashOf_alter).
  unfold txRemover. simpl. rewrite !Hh, lookup_insert_eq. simpl. rewrite !Hh.
  rewrite lookup_delete_eq, delete_insert_id by done.
  rewrite Remove_insertAsc, Remove_insertDesc by done.
  unfold stampUnstuck.
  split_and!; try done.
  - by rewrite <-app_assoc, fn_lookup_alter.
  - by rewrite !fn_lookup_alter.
  - by rewrite !fn_lookup_alter.
  - by rewrite !fn_lookup_alter.
  - by rewrite !fn_lookup_alter.
  - by rewrite !fn_lookup_alter.
  - by rewrite !fn_lookup_alter.
  - eexists. split.
    + rewrite <-app_assoc. by rewrite lookup_app_r, Nat.sub_diag by done.
    + by rewrite fn_lookup_alter.
  - intros p Hp. by rewrite !fn_lookup_alter_ne.
Qed.

Lemma X3_add_then_remove_restores_witness :
  let h := hashOf (mem Sample.three) 4%positive in
  let w1 := (Add 300 4%positive Sample.three).1 in
  let w2 := (Remove 400 h w1).1 in
  (Add 300 4%positive Sample.three).2 = true ∧
  (Remove 400 h w1).2 = Some 4%positive ∧
  Transactions (pool w2) = Transactions (pool Sample.three) ∧
  AscTxsByGasPrice (pool w2) = AscTxsByGasPrice (pool Sample.three) ∧
  DescTxsByGasPrice (pool w2) = DescTxsByGasPrice (pool Sample.three) ∧
  IsPruning (pool w2) = IsPruning (pool Sample.three) ∧
  PendingPool (pool w2) = PendingPool (pool Sample.three) ∧
  PubSub (pool w2)
    = PubSub (pool Sample.three)
        ++ [{| topic := EntryTopic;
               payload := Some (markQueued 300 (mem Sample.three 4%positive)) |};
            {| topic := ExitTopic; payload := None |}] ∧
  mem w2 4%positive = markUnstuck 400 (markQueued 300 (mem Sample.three 4%positive)) ∧
  QueuedAt (mem w2 4%positive) = 300%Z ∧
  UnstuckAt (mem w2 4%positive) = 400%Z ∧
  Pool (mem w2 4%positive) = "queued"%string ∧
  PendingAt (mem w2 4%positive) = PendingAt (mem Sample.three 4%positive) ∧
  identity (mem w2 4%positive) = identity (mem Sample.three 4%positive) ∧
  (∃ r, PubSub (pool w2) !! length (PubSub (pool Sample.three))
          = Some {| topic := EntryTopic; payload := Some r |} ∧
        QueuedAt r = 300%Z ∧ Pool r = "queued"%string ∧
        UnstuckAt r = UnstuckAt (mem Sample.three 4%positive) ∧
        PendingAt r = PendingAt (mem Sample.three 4%positive) ∧
        identity r = identity (mem Sample.three 4%positive)) ∧
  (∀ p, p ≠ 4%positive → mem w2 p = mem Sample.three p).
Proof.
  apply (X3_add_then_remove_restores 300%Z 400%Z 4%positive Sample.three).
  - apply Consistent_three.
  - vm_compute. reflexivity.
Defined.

(** X4.  Once a stored record was removed, a second [Remove] of its hash
    finds nothing, returns nil and leaves the world as it is; the same
    pointer can be added again: [Add] answers true, the record is stored
    under the same key as before, it gets a new [QueuedAt], and it still
    carries the [UnstuckAt] of its removal. *)
Theorem X4_removed_record_can_return (now now' now'' : Time) (h : common.Hash)
    (tx : loc) (w : World) :
  Consistent w →
  Transactions (pool w) !! h = Some tx →
  let w1 := (Remove now h w).1 in
  let w2 := (Add now'' tx w1).1 in
  Remove now' h w1 = (w1, None) ∧
  (Add now'' tx w1).2 = true ∧
  Transactions (pool w2) = Transactions (pool w) ∧
  AscTxsByGasPrice (pool w2) ≡ₚ AscTxsByGasPrice (pool w) ∧
  Consistent w2 ∧
  QueuedAt (mem w2 tx) = now'' ∧
  UnstuckAt (mem w2 tx) = now.
Proof.
  intros Hc Hh w1 w2. pose proof (keyed w Hc h tx Hh) as Hk.
  pose proof (Consistent_SameRecords w Hc) as (Hasc & _).
  assert (Hin : tx ∈ AscTxsByGasPrice (pool w)) by (apply Hasc; by exists h).
  assert (Hc2 : Consistent w2).
  { subst w2 w1. unfold Add, Remove. by apply Consistent_handleAdd, Consistent_txRemover. }
  split_and!; try done; subst w2 w1; unfold Add, Remove, txRemover, handleAdd in *;
    rewrite Hh in *; simpl in *.
  - by rewrite lookup_delete_eq.
  - unfold stampUnstuck. rewrite hashOf_alter, Hk, lookup_delete_eq by done. done.
  - unfold stampUnstuck. rewrite hashOf_alter, Hk, lookup_delete_eq by done. simpl.
    rewrite !hashOf_alter, Hk by done. by rewrite insert_delete_id.
  - unfold stampUnstuck. rewrite hashOf_alter, Hk, lookup_delete_eq by done. simpl.
    rewrite insertAsc_perm. symmetry. by apply Remove_perm.
  - unfold stampUnstuck. rewrite hashOf_alter, Hk, lookup_delete_eq by done. simpl.
    by rewrite fn_lookup_alter.
  - unfold stampUnstuck. rewrite hashOf_alter, Hk, lookup_delete_eq by done. simpl.
    by rewrite !fn_lookup_alter.
Qed.

Lemma X4_removed_record_can_return_witness :
  let w1 := (Remove 300 0xa1 Sample.three).1 in
  let w2 := (Add 500 2%positive w1).1 in
  Remove 400 0xa1 w1 = (w1, None) ∧
  (Add 500 2%positive w1).2 = true ∧
  Transactions (pool w2) = Transactions (pool Sample.three) ∧
  AscTxsByGasPrice (pool w2) ≡ₚ AscTxsByGasPrice (pool Sample.three) ∧
  Consistent w2 ∧
  QueuedAt (mem w2 2%positive) = 500%Z ∧
  UnstuckAt (mem w2 2%positive) = 300%Z.
Proof.
  apply (X4_removed_record_can_return 300%Z 400%Z 500%Z 0xa1 2%positive Sample.three).
  - apply Consistent_three.
  - vm_compute. reflexivity.
Defined.

(** X5.  Nothing the owning task or the prune goroutine does writes the
    hash, sender, recipient, nonce or gas price of any record; a request
    changes at most one record, the one added or the one removed. *)
Theorem X5_identity_fields_are_never_written (now : Time) (req : Request)
    (v : TxStatus) (received txCount : N) (w : World) (p : loc) :
  identity (mem (serve now req w).1 p) = identity (mem w p) ∧
  identity (mem (collectOne now v received txCount w).1.1 p) = identity (mem w p) ∧
  (mem (serve now req w).1 p ≠ mem w p →
     req = AddRequest p ∨
     ∃ h, req = RemovedUnstuckTx h ∧ Transactions (pool w) !! h = Some p).
Proof.
  assert (Hrem : ∀ h, identity (mem (txRemover now h w).1 p) = identity (mem w p)).
  { intros h. unfold txRemover.
    destruct (Transactions (pool w) !! h) as [tx|]; simpl; [|done].
    unfold stampUnstuck, alter, fn_alter. by destruct (decide (tx = p)) as [->|]. }
  split_and!.
  - destruct req as [tx|h|pending queued|h|h| |o]; simpl; try done.
    + unfold handleAdd.
      destruct (Transactions (pool w) !! hashOf (mem w) tx); simpl; [done|].
      unfold alter, fn_alter. by destruct (decide (tx = p)) as [->|].
    + specialize (Hrem h). by destruct (txRemover now h w).
    + unfold handlePrune. destruct (IsPruning (pool w)); [done|].
      by destruct (TxList.len (DescTxsByGasPrice (pool w)) =? 0)%nat.
  - unfold collectOne. destruct (Status v); [done|].
    specialize (Hrem (StatusHash v)).
    by destruct (txRemover now (StatusHash v) w) as [w1 [tx|]].
  - destruct req as [tx|h|pending queued|h|h| |o]; simpl; try done.
    + unfold handleAdd.
      destruct (Transactions (pool w) !! hashOf (mem w) tx); simpl; [done|].
      unfold alter, fn_alter. destruct (decide (tx = p)) as [->|]; [by left|done].
    + unfold txRemover. destruct (Transactions (pool w) !! h) as [tx|] eqn:Hh;
        simpl; [|done].
      unfold stampUnstuck, alter, fn_alter.
      destruct (decide (tx = p)) as [->|]; [|done]. right. by exists h.
    + unfold handlePrune. destruct (IsPruning (pool w)); [done|].
      by destruct (TxList.len (DescTxsByGasPrice (pool w)) =? 0)%nat.
Qed.

(** ** Filtered queries on a pool that holds something *)

Lemma fanOut_answers (deliver : ∀ A : Type, list A → list A) keep w :
  (∀ A (l : list A), deliver A l ≡ₚ l) →
  Consistent w →
  DescTxsByGasPrice (pool w) ≠ [] →
  Answers w (match DescListTxs w with
             | None => Returns None
             | Some txs => fanOut deliver keep (mem w) txs
             end) keep.
Proof.
  intros Hperm Hc Hne.
  pose proof (Consistent_SameRecords w Hc) as (_ & Hdesc & _ & Hnd & _).
  unfold DescListTxs. destruct (handleList TxList.DESC w) as [txs|] eqn:Hl.
  - pose proof (handleList_elems TxList.DESC w) as He. rewrite Hl in He.
    simpl in He. subst txs.
    destruct (fanOut_filters deliver keep (mem w) _ Hperm Hne) as (result & -> & Hres).
    exists result. split_and!; try done.
    + rewrite Hres. by apply list.NoDup_filter.
    + intros tx. by rewrite Hres, list_elem_of_filter, Hdesc, (comm and).
  - by apply handleList_nil in Hl.
Qed.

(** X6.  On a consistent pool that holds something, whatever order the
    worker pool delivers in, [SentFrom], [SentTo], [OlderThanX] and
    [FresherThanX] return (they neither block nor panic) a non-nil slice
    holding exactly the stored records their predicate keeps, each once;
    when nothing matches the slice is empty, not nil. *)
Theorem X6_filtered_queries_answer (deliver : ∀ A : Type, list A → list A)
    (now : Time) (w : World) (address : common.Address) (d : Duration) :
  (∀ A (l : list A), deliver A l ≡ₚ l) →
  Consistent w →
  Count w ≠ 0 →
  Answers w (SentFrom deliver w address) (IsSentFrom address) ∧
  Answers w (SentTo deliver w address) (IsSentTo address) ∧
  Answers w (OlderThanX deliver now w d) (IsQueuedForGTE now d) ∧
  Answers w (FresherThanX deliver now w d) (IsQueuedForLTE now d).
Proof.
  intros Hperm Hc Hn.
  assert (Hne : DescTxsByGasPrice (pool w) ≠ []).
  { intros Hnil. apply Hn. rewrite <-(handleList_length TxList.DESC w Hc).
    by rewrite handleList_elems, Hnil. }
  split_and!; by apply fanOut_answers.
Qed.

Lemma X6_filtered_queries_answer_witness :
  Answers Sample.three (SentFrom Sample.lifo Sample.three Sample.A)
    (IsSentFrom Sample.A) ∧
  Answers Sample.three (SentTo Sample.lifo Sample.three Sample.A)
    (IsSentTo Sample.A) ∧
  Answers Sample.three (OlderThanX Sample.lifo 300 Sample.three 50)
    (IsQueuedForGTE 300 50) ∧
  Answers Sample.three (FresherThanX Sample.lifo 300 Sample.three 50)
    (IsQueuedForLTE 300 50).
Proof.
  apply (X6_filtered_queries_answer Sample.lifo 300%Z Sample.three Sample.A 50%Z).
  - intros A l. apply reverse_Permutation.
  - apply Consistent_three.
  - vm_compute. discriminate.
Defined.

Example sent_from_nobody :
  SentFrom Sample.lifo Sample.three Sample.B = Returns (Some []).
Proof. vm_compute. reflexivity. Qed.

(** ** The ends of the sorted lists *)

Lemma StronglySorted_reverse {A} (R : relation A) (l : list A) :
  StronglySorted R l → StronglySorted (flip R) (reverse l).
Proof.
  induction 1 as [|x l Hs IH Hall]; [constructor|].
  rewrite reverse_cons. apply StronglySorted_app_2.
  - intros y z Hy Hz. rewrite elem_of_reverse in Hy.
    apply elem_of_cons in Hz as [->|Hz]; [|by apply elem_of_nil in Hz].
    rewrite list.Forall_forall in Hall. unfold flip. by apply Hall.
  - exact IH.
  - repeat constructor.
Qed.

Lemma take_extremes {A} (R : relation A) (l : list A) (n : nat) a b :
  StronglySorted R l → NoDup l →
  a ∈ take n l → b ∈ l → b ∉ take n l → R a b.
Proof.
  intros Hs Hnd Ha Hb Hnb. rewrite <-(take_drop n l) in Hs, Hb.
  apply elem_of_app in Hb as [Hb|Hb]; [done|].
  by eapply StronglySorted_app_1_elem_of.
Qed.

Lemma sliceTo_extremes w o x better :
  Consistent w →
  x ≤ Count w →
  StronglySorted better (elems (handleList o w)) →
  Extremes w (sliceTo (handleList o w) x) x better.
Proof.
  intros Hc Hx Hs.
  pose proof (Consistent_SameRecords w Hc) as (Hasc & Hdesc & Hnda & Hndd & _).
  assert (Hnd : NoDup (elems (handleList o w))).
  { rewrite handleList_elems. by destruct o. }
  assert (Hst : ∀ a, a ∈ elems (handleList o w) ↔ stored (pool w) a).
  { intros a. rewrite handleList_elems. destruct o; [apply Hasc|apply Hdesc]. }
  destruct (sliceTo_within (handleList o w) x) as (top & Hr & He).
  { by rewrite (handleList_length o w Hc). }
  exists top. rewrite He. split_and!.
  - done.
  - rewrite length_take_le; [done|].
    pose proof (handleList_length o w Hc). lia.
  - eapply sublist_NoDup; [exact Hnd|apply sublist_take].
  - intros a Ha. apply Hst. eapply elem_of_sublist; [exact Ha|apply sublist_take].
  - intros a b Ha Hb Hnb. eapply take_extremes; try done. by apply Hst.
Qed.

(** X7.  In a consistent pool and for [x] up to [Count()],
    [TopXWithHighGasPrice(x)] returns [x] distinct stored records none of
    which pays less than any stored record left out, and
    [TopXWithLowGasPrice(x)] returns [x] distinct stored records none of
    which pays more than any stored record left out. *)
Theorem X7_topx_are_the_extremes (w : World) (x : N) :
  Consistent w →
  x ≤ Count w →
  Extremes w (TopXWithHighGasPrice w x) x
    (λ a b, GasPrice (mem w b) ≤ GasPrice (mem w a)) ∧
  Extremes w (TopXWithLowGasPrice w x) x
    (λ a b, GasPrice (mem w a) ≤ GasPrice (mem w b)).
Proof.
  intros Hc Hx. unfold TopXWithHighGasPrice, TopXWithLowGasPrice, DescListTxs, AscListTxs.
  split; apply sliceTo_extremes; try done; rewrite handleList_elems.
  - destruct Hc as [_ _ Hs ->]. by apply StronglySorted_reverse in Hs.
  - apply Hc.
Qed.

Lemma X7_topx_are_the_extremes_witness :
  Extremes Sample.three (TopXWithHighGasPrice Sample.three 2) 2
    (λ a b, GasPrice (mem Sample.three b) ≤ GasPrice (mem Sample.three a)) ∧
  Extremes Sample.three (TopXWithLowGasPrice Sample.three 2) 2
    (λ a b, GasPrice (mem Sample.three a) ≤ GasPrice (mem Sample.three b)).
Proof.
  apply (X7_topx_are_the_extremes Sample.three 2).
  - apply Consistent_three.
  - vm_compute. discriminate.
Defined.

(** ** Feeding the pool from an upstream view *)

Lemma addEach_cons clock k tx rest count w :
  addEach clock k (tx :: rest) count w
    = addEach clock (S k) rest
        (if (Add (clock k) tx w).2 then count + 1 else count)
        (Add (clock k) tx w).1.
Proof. simpl. by destruct (Add (clock k) tx w). Qed.

(** What one [Add] leaves in place, whatever it answers. *)
Lemma Add_keeps now tx w :
  (∀ p, hashOf (mem (Add now tx w).1) p = hashOf (mem w) p) ∧
  (∀ h p, Transactions (pool w) !! h = Some p →
          Transactions (pool (Add now tx w).1) !! h = Some p) ∧
  is_Some (Transactions (pool (Add now tx w).1) !! hashOf (mem w) tx) ∧
  N.of_nat (length (AscTxsByGasPrice (pool (Add now tx w).1)))
    = N.of_nat (length (AscTxsByGasPrice (pool w)))
        + (if (Add now tx w).2 then 1 else 0).
Proof.
  unfold Add, handleAdd.
  destruct (Transactions (pool w) !! hashOf (mem w) tx) as [tx'|] eqn:Hh; simpl.
  - split_and!; try done; try (by eexists); lia.
  - split_and!.
    + intros p. by apply hashOf_alter.
    + intros h p Hp. rewrite hashOf_alter by done.
      rewrite lookup_insert_ne; [done|]. intros <-. congruence.
    + rewrite hashOf_alter by done. rewrite lookup_insert_eq. by eexists.
    + rewrite insertAsc_perm. simpl. lia.
Qed.

Lemma addEach_grows clock (txs : list loc) :
  ∀ k count w,
    Consistent w →
    Consistent (addEach clock k txs count w).1 ∧
    (∀ p, hashOf (mem (addEach clock k txs count w).1) p = hashOf (mem w) p) ∧
    (∀ h p, Transactions (pool w) !! h = Some p →
            Transactions (pool (addEach clock k txs count w).1) !! h = Some p) ∧
    (∀ tx, tx ∈ txs →
       is_Some (Transactions (pool (addEach clock k txs count w).1) !! hashOf (mem w) tx)) ∧
    Count (addEach clock k txs count w).1 + count
      = Count w + (addEach clock k txs count w).2 ∧
    (addEach clock k txs count w).2 ≤ count + N.of_nat (length txs).
Proof.
  induction txs as [|tx rest IH]; intros k count w Hc.
  - simpl. split_and!; try done; try (by intros tx ?%elem_of_nil); lia.
  - rewrite addEach_cons.
    pose proof (Add_keeps (clock k) tx w) as (HH & HT & Hin & Hlen).
    assert (Hc1 : Consistent (Add (clock k) tx w).1) by by apply Consistent_handleAdd.
    destruct (IH (S k) (if (Add (clock k) tx w).2 then count + 1 else count)
                 (Add (clock k) tx w).1 Hc1) as (Hc' & HH' & HT' & Hin' & Hcnt & Hle).
    split_and!.
    + done.
    + intros p. by rewrite HH', HH.
    + intros h p Hp. by apply HT', HT.
    + intros p [->|Hp]%elem_of_cons.
      * destruct Hin as [q Hq]. exists q. by apply HT'.
      * rewrite <-HH. by apply Hin'.
    + unfold Count, handleCount, TxList.len in *.
      destruct ((Add (clock k) tx w).2); lia.
    + simpl length. destruct ((Add (clock k) tx w).2); lia.
Qed.

Lemma addEach_nothing_new clock (txs : list loc) :
  ∀ k count w,
    (∀ tx, tx ∈ txs → is_Some (Transactions (pool w) !! hashOf (mem w) tx)) →
    addEach clock k txs count w = (w, count).
Proof.
  induction txs as [|tx rest IH]; intros k count w Hin; [done|].
  rewrite addEach_cons. unfold Add, handleAdd.
  destruct (Hin tx) as [p Hp]; [by left|]. rewrite Hp. simpl.
  apply IH. intros q Hq. apply Hin. by right.
Qed.

Lemma visited_all (range : ∀ V : Type, gmap string V → list (string * V))
    (txs : Upstream) keyO inner keyI tx :
  (∀ V (m : gmap string V), range V m ≡ₚ map_to_list m) →
  txs !! keyO = Some inner → inner !! keyI = Some tx →
  tx ∈ visited range txs.
Proof.
  intros Hrange HO HI. unfold visited. apply list_elem_of_bind.
  exists keyO. split.
  - rewrite HO. simpl. apply list_elem_of_omap. exists keyI. split; [|done].
    apply list_elem_of_fmap. exists (keyI, tx). split; [done|].
    rewrite Hrange. by apply elem_of_map_to_list.
  - apply list_elem_of_fmap. exists (keyO, inner). split; [done|].
    rewrite Hrange. by apply elem_of_map_to_list.
Qed.

(** X8.  [AddQueued] on a consistent pool, in whatever order the maps
    are ranged over: the pool stays consistent; the number returned is
    the growth of [Count()] and at most the number of records offered;
    nothing that was stored is dropped or replaced; every record of the
    upstream view has its hash stored afterwards; and a second call with
    the same view inserts nothing, returns 0 and leaves the world as it
    is. *)
Theorem X8_add_queued_counts_the_new (range : ∀ V : Type, gmap string V → list (string * V))
    (clock clock' : nat → Time) (txs : Upstream) (w : World) :
  (∀ V (m : gmap string V), range V m ≡ₚ map_to_list m) →
  Consistent w →
  let w' := (AddQueued range clock txs w).1 in
  let count := (AddQueued range clock txs w).2 in
  Consistent w' ∧
  Count w' = Count w + count ∧
  count ≤ N.of_nat (length (visited range txs)) ∧
  (∀ h tx, Get w h = Some tx → Get w' h = Some tx) ∧
  (∀ keyO inner keyI tx,
     txs !! keyO = Some inner → inner !! keyI = Some tx →
     Exists w' (Hash (mem w tx)) = true) ∧
  AddQueued range clock' txs w' = (w', 0).
Proof.
  intros Hrange Hc w' count. subst w' count. unfold AddQueued.
  destruct (addEach_grows clock (visited range txs) 0 0 w Hc)
    as (Hc' & HH & HT & Hin & Hcnt & Hle).
  split_and!; try done.
  - lia.
  - intros h tx. unfold Get. rewrite !handleGet_lookup. apply HT.
  - intros keyO inner keyI tx HO HI. unfold Exists, handleExists.
    apply bool_decide_eq_true, Hin. by eapply visited_all.
  - apply addEach_nothing_new. intros tx Htx. rewrite HH. by apply Hin.
Qed.

Lemma X8_add_queued_counts_the_new_witness :
  let w' := (AddQueued inOrder Sample.noon Sample.upQueued Sample.twins).1 in
  let count := (AddQueued inOrder Sample.noon Sample.upQueued Sample.twins).2 in
  Consistent w' ∧
  Count w' = Count Sample.twins + count ∧
  count ≤ N.of_nat (length (visited inOrder Sample.upQueued)) ∧
  (∀ h tx, Get Sample.twins h = Some tx → Get w' h = Some tx) ∧
  (∀ keyO inner keyI tx,
     Sample.upQueued !! keyO = Some inner → inner !! keyI = Some tx →
     Exists w' (Hash (mem Sample.twins tx)) = true) ∧
  AddQueued inOrder Sample.noon Sample.upQueued w' = (w', 0).
Proof.
  apply (X8_add_queued_counts_the_new inOrder Sample.noon Sample.noon
           Sample.upQueued Sample.twins).
  - intros V m. reflexivity.
  - unfold Sample.twins, Sample.addAll. simpl.
    repeat apply Consistent_handleAdd. apply Consistent_empty.
Defined.

Example add_queued_sample :
  (AddQueued inOrder Sample.noon Sample.upQueued Sample.twins).2 = 1 ∧
  (AddQueued inOrder Sample.noon Sample.upQueued Sample.single).2 = 0.
Proof. vm_compute. split; reflexivity. Qed.

(** ** Prunes that never finish *)

Lemma serve_under_latch now req w :
  IsPruning (pool w) = true →
  IsPruning (pool (serve now req w).1) = true ∧
  spawned req (serve now req w).2 = [].
Proof.
  intros Hp. destruct req as [tx|h|pending queued|h|h| |o]; simpl; try done.
  - unfold handleAdd.
    by destruct (Transactions (pool w) !! hashOf (mem w) tx).
  - unfold txRemover. by destruct (Transactions (pool w) !! h).
  - unfold handlePrune. by rewrite Hp.
Qed.

Lemma Stalled_step s s' : step s s' → Stalled s → Stalled s' ∧ jobs s' = jobs s.
Proof.
  intros Hstep [Hp Hj].
  assert (Hwaits : ∀ js1 j js2, jobs s = js1 ++ j :: js2 →
            ∃ r n, j = Collecting [] r n).
  { intros js1 j js2 Hjobs. apply Hj. rewrite Hjobs.
    apply elem_of_app. right. by left. }
  destruct Hstep as
    [s m' Hid|s now req|s js1 js2 pending queued rpc Hjobs
    |s js1 js2 c1 v c2 received txCount now Hjobs Hnone
    |s js1 js2 c1 v c2 received txCount tx Hjobs Hv Hh
    |s js1 js2 txHash tx commChan received txCount now Hjobs
    |s js1 js2 txHash tx commChan received txCount Hjobs
    |s js1 js2 txHash tx commChan received txCount Hjobs];
    try (exfalso; destruct (Hwaits _ _ _ Hjobs) as (r & n & Heq); done).
  - done.
  - destruct (serve_under_latch now req (world s) Hp) as [Hp' Hs].
    simpl. rewrite Hs, app_nil_r. done.
  - exfalso. destruct (Hwaits _ _ _ Hjobs) as (r & n & Heq).
    injection Heq as Hc _ _. by destruct c1.
  - exfalso. destruct (Hwaits _ _ _ Hjobs) as (r & n & Heq).
    injection Heq as Hc _ _. by destruct c1.
Qed.

Lemma Stalled_run s s' : rtc step s s' → Stalled s → Stalled s' ∧ jobs s' = jobs s.
Proof.
  induction 1 as [|s1 s2 s3 Hstep _ IH]; [done|].
  intros Hs. destruct (Stalled_step s1 s2 Hstep Hs) as [Hs2 Hj2].
  destruct (IH Hs2) as [Hs3 Hj3]. split; [done|congruence].
Qed.

(** X9.  A prune goroutine that takes its snapshot when the pool has
    been emptied since the request was answered never finishes: it has
    no message to wait for and its count of zero is never tested.  From
    then on, whatever requests are served, the latch stays set and every
    prune request is answered PRUNING. *)
Theorem X9_prune_of_an_emptied_pool_never_ends
    (deliver : ∀ A : Type, list A → list A) (clock : nat → Time)
    (rpc : common.Address → option N) (pending queued : Upstream) (s : System) :
  (∀ A (l : list A), deliver A l ≡ₚ l) →
  DescTxsByGasPrice (pool (world s)) = [] →
  IsPruning (pool (world s)) = true →
  jobs s = [Spawned pending queued] →
  pruneBody deliver clock rpc pending queued (world s) = None ∧
  step s {| world := world s; jobs := [Collecting [] 0 0] |} ∧
  ∀ s', rtc step {| world := world s; jobs := [Collecting [] 0 0] |} s' →
    IsPruning (pool (world s')) = true ∧
    (RemoveUnstuck (world s')).2 = PRUNING ∧
    jobs s' = [Collecting [] 0 0].
Proof.
  intros Hperm Hd Hp Hj. split_and!.
  - unfold pruneBody, TxList.get. rewrite Hd. simpl.
    pose proof (Hperm TxStatus []) as Hnil. apply Permutation_nil_r in Hnil.
    by rewrite Hnil.
  - pose proof (step_snapshot s [] [] pending queued rpc Hj) as Hstep.
    unfold TxList.get in Hstep. rewrite Hd in Hstep. exact Hstep.
  - intros s' Hrun.
    destruct (Stalled_run _ s' Hrun) as [[Hp' _] Hj'].
    { split; [done|]. simpl. intros j ->%list_elem_of_singleton. by eexists _, _. }
    split_and!; [done| |done].
    unfold RemoveUnstuck, handlePrune. by rewrite Hp'.
Qed.

Example emptiedUnderPrune_reachable : reachable emptiedUnderPrune.
Proof.
  exists Sample.heap. unfold emptiedUnderPrune.
  eapply rtc_l; [apply (step_serve _ 100%Z (AddRequest 1))|].
  eapply rtc_l;
    [apply (step_serve _ 120%Z (RemoveTxsFromQueuedPool Sample.upPending Sample.upQueued))|].
  eapply rtc_l; [apply (step_serve _ 130%Z (RemovedUnstuckTx 0xaa))|].
  apply rtc_refl.
Qed.

Lemma X9_prune_of_an_emptied_pool_never_ends_witness :
  pruneBody Sample.lifo Sample.noon Sample.noRPC Sample.upPending Sample.upQueued
    (world emptiedUnderPrune) = None ∧
  step emptiedUnderPrune
    {| world := world emptiedUnderPrune; jobs := [Collecting [] 0 0] |} ∧
  ∀ s', rtc step {| world := world emptiedUnderPrune; jobs := [Collecting [] 0 0] |} s' →
    IsPruning (pool (world s')) = true ∧
    (RemoveUnstuck (world s')).2 = PRUNING ∧
    jobs s' = [Collecting [] 0 0].
Proof.
  apply (X9_prune_of_an_emptied_pool_never_ends Sample.lifo Sample.noon Sample.noRPC
           Sample.upPending Sample.upQueued emptiedUnderPrune).
  - intros A l. apply reverse_Permutation.
  - vm_compute. reflexivity.
  - vm_compute. reflexivity.
  - vm_compute. reflexivity.
Defined.

Lemma collectOne_counts now v received txCount w :
  (collectOne now v received txCount w).1.2 ≤ received + 1 ∧
  ((collectOne now v received txCount w).2 = true → txCount ≤ received + 1) ∧
  (∀ h, Transactions (pool w) !! h = None →
        Transactions (pool (collectOne now v received txCount w).1.1) !! h = None).
Proof.
  unfold collectOne. destruct (Status v).
  - simpl. split_and!; [lia| |done]. by intros ?%N.leb_le.
  - unfold txRemover.
    destruct (Transactions (pool w) !! StatusHash v) as [tx|] eqn:Hh; simpl.
    + split_and!; [lia|by intros ?%N.leb_le|].
      intros h Hnone. apply lookup_delete_None. by right.
    + split_and!; [lia|done|done].
Qed.

Lemma collect_short clock (chan : list TxStatus) :
  ∀ k received txCount w,
    received + N.of_nat (length chan) < txCount →
    collect clock k chan received txCount w = None.
Proof.
  induction chan as [|v rest IH]; intros k received txCount w Hlt; [done|].
  rewrite collect_cons.
  pose proof (collectOne_counts (clock k) v received txCount w) as (Hle & Hdone & _).
  destruct ((collectOne (clock k) v received txCount w).2) eqn:Hd.
  - specialize (Hdone eq_refl). simpl length in Hlt. lia.
  - apply IH. simpl length in Hlt. lia.
Qed.

Lemma collect_missing clock (chan : list TxStatus) :
  ∀ k received txCount w v,
    received + N.of_nat (length chan) ≤ txCount →
    v ∈ chan → Status v = UNSTUCK →
    Transactions (pool w) !! StatusHash v = None →
    collect clock k chan received txCount w = None.
Proof.
  induction chan as [|u rest IH]; intros k received txCount w v Hle Hin Hs Hnone.
  - by apply elem_of_nil in Hin.
  - rewrite collect_cons. simpl length in Hle.
    apply elem_of_cons in Hin as [<-|Hin].
    + unfold collectOne, txRemover. rewrite Hs, Hnone. simpl.
      apply collect_short. lia.
    + pose proof (collectOne_counts (clock k) u received txCount w)
        as (Hr & Hdone & Hkeep).
      assert (length rest ≠ 0%nat) by (destruct rest; [by apply elem_of_nil in Hin|done]).
      destruct ((collectOne (clock k) u received txCount w).2) eqn:Hd.
      * specialize (Hdone eq_refl). lia.
      * apply (IH _ _ _ _ v); [lia|done|done|by apply Hkeep].
Qed.

(** X10.  When a transaction the snapshot classified UNSTUCK is removed
    by a request before the prune loop gets to its message, the loop
    skips its counter for that message, never reaches the snapshot's
    count and waits for ever: the goroutine does not finish and the
    latch is not released. *)
Theorem X10_prune_stalls_when_a_removal_finds_nothing
    (deliver : ∀ A : Type, list A → list A) (clock : nat → Time) (now : Time)
    (rpc : common.Address → option N) (pending queued : Upstream)
    (w : World) (tx : loc) :
  (∀ A (l : list A), deliver A l ≡ₚ l) →
  Consistent w →
  tx ∈ DescTxsByGasPrice (pool w) →
  Status (classify (mem w) rpc pending queued tx) = UNSTUCK →
  collect clock 0
    (deliver _ (classify (mem w) rpc pending queued <$> DescTxsByGasPrice (pool w)))
    0 (N.of_nat (length (DescTxsByGasPrice (pool w))))
    (Remove now (Hash (mem w tx)) w).1 = None.
Proof.
  intros Hperm Hc Hin Hs.
  pose proof (Consistent_SameRecords w Hc) as (_ & Hdesc & _).
  pose proof (stored_lookup w tx Hc (proj1 (Hdesc tx) Hin)) as Hl. unfold hashOf in Hl.
  apply (collect_missing _ _ _ _ _ _ (classify (mem w) rpc pending queued tx)).
  - by rewrite Hperm, length_fmap.
  - rewrite Hperm. by apply list_elem_of_fmap_2.
  - done.
  - rewrite classify_hash. unfold Remove, txRemover, hashOf. rewrite Hl. simpl.
    apply lookup_delete_eq.
Qed.

Lemma X10_prune_stalls_when_a_removal_finds_nothing_witness :
  collect Sample.noon 0
    (Sample.lifo _ (classify (mem Sample.mixed) Sample.noRPC Sample.upPending
                      Sample.upQueued <$> DescTxsByGasPrice (pool Sample.mixed)))
    0 (N.of_nat (length (DescTxsByGasPrice (pool Sample.mixed))))
    (Remove 150 (Hash (mem Sample.mixed 4%positive)) Sample.mixed).1 = None.
Proof.
  apply (X10_prune_stalls_when_a_removal_finds_nothing Sample.lifo Sample.noon 150%Z
           Sample.noRPC Sample.upPending Sample.upQueued Sample.mixed 4%positive).
  - intros A l. apply reverse_Permutation.
  - apply Consistent_mixed.
  - vm_compute. apply list_elem_of_here.
  - vm_compute. reflexivity.
Defined.

(** ** What a finished prune leaves *)

Lemma filter_ext_in {A} (P Q : A → Prop) `{!∀ x, Decision (P x), !∀ x, Decision (Q x)}
    (l : list A) :
  (∀ x, x ∈ l → (P x ↔ Q x)) → filter P l = filter Q l.
Proof.
  induction l as [|a l IH]; intros Hext; [done|].
  rewrite !filter_cons. rewrite IH; [|intros x Hx; apply Hext; by right].
  destruct (Hext a) as [H1 H2]; [by left|].
  destruct (decide (P a)), (decide (Q a)); tauto.
Qed.

Lemma filter_all {A} (P : A → Prop) `{!∀ x, Decision (P x)} (l : list A) :
  (∀ x, x ∈ l → P x) → filter P l = l.
Proof.
  induction l as [|a l IH]; intros Hall; [done|].
  rewrite filter_cons, decide_True by (apply Hall; by left).
  rewrite IH; [done|]. intros x Hx. apply Hall. by right.
Qed.

Lemma Remove_filter (l : list loc) tx :
  NoDup l → TxList.Remove l tx = filter (λ p, p ≠ tx) l.
Proof.
  induction 1 as [|y l Hy Hnd IH]; [done|].
  simpl. rewrite filter_cons. destruct (decide (y = tx)) as [->|Hne].
  - rewrite decide_False by (by intros []). by rewrite <-IH, Remove_absent.
  - rewrite decide_True by done. by rewrite IH.
Qed.

(** The lists after one stored record was detached: the others, in the
    order they had. *)
Lemma detached_lists now h w tx :
  Consistent w →
  Transactions (pool w) !! h = Some tx →
  AscTxsByGasPrice (pool (txRemover now h w).1)
    = filter (λ p, hashOf (mem w) p ≠ h) (AscTxsByGasPrice (pool w)) ∧
  DescTxsByGasPrice (pool (txRemover now h w).1)
    = filter (λ p, hashOf (mem w) p ≠ h) (DescTxsByGasPrice (pool w)).
Proof.
  intros Hc Hh. pose proof (Consistent_NoDup w Hc) as Hnd.
  pose proof (Consistent_SameRecords w Hc) as (Hasc & Hdesc & _ & Hndd & _).
  assert (Hid : ∀ p, stored (pool w) p → (p ≠ tx ↔ hashOf (mem w) p ≠ h)).
  { intros p Hp. pose proof (stored_lookup w p Hc Hp) as Hl. split.
    - intros Hne Heq. rewrite Heq in Hl. congruence.
    - intros Hne ->. apply Hne. by apply (keyed w Hc h tx). }
  unfold txRemover. rewrite Hh. simpl. rewrite !Remove_filter by done.
  split; apply filter_ext_in; intros p Hp; apply Hid; [by apply Hasc|by apply Hdesc].
Qed.

Lemma collect_sieves clock (chan : list TxStatus) :
  ∀ k received w w',
    Consistent w →
    NoDup (StatusHash <$> chan) →
    (∀ v, v ∈ chan → is_Some (Transactions (pool w) !! StatusHash v)) →
    collect clock k chan received (received + N.of_nat (length chan)) w = Some w' →
    AscTxsByGasPrice (pool w')
      = filter (λ p, hashOf (mem w) p ∉ unstuckHashes chan) (AscTxsByGasPrice (pool w)) ∧
    DescTxsByGasPrice (pool w')
      = filter (λ p, hashOf (mem w) p ∉ unstuckHashes chan) (DescTxsByGasPrice (pool w)).
Proof.
  induction chan as [|v rest IH]; intros k received w w' Hc Hnd Hpresent Hrun; [done|].
  rewrite fmap_cons in Hnd. apply list.NoDup_cons in Hnd as [Hv Hnd].
  rewrite collect_cons in Hrun. rewrite unstuckHashes_cons.
  assert (Hsplit : ∀ (l : list loc) (m : Heap) h (U : list common.Hash),
            filter (λ p, hashOf m p ∉ U) (filter (λ p, hashOf m p ≠ h) l)
              = filter (λ p, hashOf m p ∉ h :: U) l).
  { intros l m h U. rewrite list_filter_filter. apply list_filter_iff.
    intros p. rewrite not_elem_of_cons. tauto. }
  destruct (Status v) eqn:Hs.
  - rewrite collectOne_stuck in Hrun by done. cbn [fst snd] in Hrun.
    destruct rest as [|v' rest'].
    + rewrite (proj2 (N.leb_le _ _)) in Hrun by (simpl; lia).
      injection Hrun as <-. unfold unstuckHashes. simpl.
      split; symmetry; apply filter_all; intros p _; apply not_elem_of_nil.
    + rewrite (proj2 (N.leb_gt _ _)) in Hrun by (simpl length; lia).
      replace (received + N.of_nat (length (v :: v' :: rest')))
        with (received + 1 + N.of_nat (length (v' :: rest'))) in Hrun
        by (simpl length; lia).
      apply (IH _ _ _ _ Hc Hnd) in Hrun; [done|].
      intros u Hu. apply Hpresent. by right.
  - destruct (Hpresent v) as [tx Htx]; [by left|].
    rewrite (collectOne_unstuck _ _ _ _ _ tx) in Hrun by done. cbn [fst snd] in Hrun.
    pose proof (handed_over (clock k) (StatusHash v) w tx Htx) as (HT & _ & _ & _ & HH).
    pose proof (detached_lists (clock k) (StatusHash v) w tx Hc Htx) as [Ha Hd].
    pose proof (Consistent_collectOne (clock k) v received
                  (received + N.of_nat (length (v :: rest))) w Hc) as Hc2.
    rewrite (collectOne_unstuck _ _ _ _ _ tx) in Hc2 by done. cbn [fst snd] in Hc2.
    set (w2 := handOver (txRemover (clock k) (StatusHash v) w).1 tx) in *.
    change (AscTxsByGasPrice (pool (txRemover (clock k) (StatusHash v) w).1))
      with (AscTxsByGasPrice (pool w2)) in Ha.
    change (DescTxsByGasPrice (pool (txRemover (clock k) (StatusHash v) w).1))
      with (DescTxsByGasPrice (pool w2)) in Hd.
    destruct rest as [|v' rest'].
    + rewrite (proj2 (N.leb_le _ _)) in Hrun by (simpl; lia).
      injection Hrun as <-. rewrite Ha, Hd.
      split; apply list_filter_iff; intros p; unfold unstuckHashes; simpl;
        rewrite not_elem_of_cons; split; [|tauto| |tauto];
        intros ?; (split; [done|apply not_elem_of_nil]).
    + rewrite (proj2 (N.leb_gt _ _)) in Hrun by (simpl length; lia).
      replace (received + N.of_nat (length (v :: v' :: rest')))
        with (received + 1 + N.of_nat (length (v' :: rest'))) in Hrun
        by (simpl length; lia).
      apply (IH _ _ _ _ Hc2 Hnd) in Hrun.
      * destruct Hrun as [-> ->]. rewrite Ha, Hd.
        split; (etrans; [|apply Hsplit]); f_equal;
          apply list_filter_iff; intros p; by rewrite HH.
      * intros u Hu. rewrite HT, lookup_delete_ne.
        -- apply Hpresent. by right.
        -- intros Heq. apply Hv. rewrite Heq. by apply list_elem_of_fmap_2.
Qed.

(** The hashes reported unstuck are those of the snapshot entries
    classified unstuck. *)
Lemma unstuck_of_snapshot w rpc pending queued (arrival : list TxStatus) tx :
  Consistent w →
  arrival ≡ₚ classify (mem w) rpc pending queued <$> DescTxsByGasPrice (pool w) →
  stored (pool w) tx →
  hashOf (mem w) tx ∈ unstuckHashes arrival ↔
    Status (classify (mem w) rpc pending queued tx) = UNSTUCK.
Proof.
  intros Hc Harr Htx.
  pose proof (Consistent_SameRecords w Hc) as (_ & Hdesc & _).
  unfold unstuckHashes. rewrite Harr. split.
  - intros (v & Hv & [Hs (tx' & -> & Htx')%list_elem_of_fmap]%list_elem_of_filter)
      %list_elem_of_fmap.
    rewrite classify_hash in Hv.
    pose proof (stored_lookup w tx Hc Htx) as H1.
    pose proof (stored_lookup w tx' Hc (proj1 (Hdesc tx') Htx')) as H2.
    rewrite Hv in H1. assert (tx = tx') as -> by congruence. done.
  - intros Hs. apply list_elem_of_fmap.
    exists (classify (mem w) rpc pending queued tx).
    split; [by rewrite classify_hash|].
    apply list_elem_of_filter. split; [done|].
    apply list_elem_of_fmap_2. by apply Hdesc.
Qed.

Lemma pruneBody_sieves (deliver : ∀ A : Type, list A → list A)
    (clock : nat → Time) (rpc : common.Address → option N)
    (pending queued : Upstream) (w : World) :
  (∀ A (l : list A), deliver A l ≡ₚ l) →
  Consistent w →
  DescTxsByGasPrice (pool w) ≠ [] →
  ∃ w', pruneBody deliver clock rpc pending queued w = Some w' ∧
    Consistent w' ∧
    IsPruning (pool w') = false ∧
    AscTxsByGasPrice (pool w')
      = filter (λ tx, Status (classify (mem w) rpc pending queued tx) = STUCK)
               (AscTxsByGasPrice (pool w)) ∧
    DescTxsByGasPrice (pool w')
      = filter (λ tx, Status (classify (mem w) rpc pending queued tx) = STUCK)
               (DescTxsByGasPrice (pool w)).
Proof.
  intros Hperm Hc Hne.
  pose proof (Consistent_SameRecords w Hc) as (Hasc & Hdesc & _).
  unfold pruneBody, TxList.get. cbv zeta.
  set (sent := classify (mem w) rpc pending queued <$> DescTxsByGasPrice (pool w)).
  set (arrival := deliver TxStatus sent).
  assert (Harr : arrival ≡ₚ sent) by apply Hperm.
  assert (Hlen : length arrival = length (DescTxsByGasPrice (pool w))).
  { rewrite Harr. unfold sent. by rewrite length_fmap. }
  assert (Hnd : NoDup (StatusHash <$> arrival)).
  { rewrite Harr. by apply snapshot_hashes_NoDup. }
  assert (Hpresent : ∀ v, v ∈ arrival → is_Some (Transactions (pool w) !! StatusHash v)).
  { intros v. rewrite Harr. unfold sent.
    intros (tx & -> & Htx)%list_elem_of_fmap.
    rewrite classify_hash, stored_lookup; [by eexists|done|by apply Hdesc]. }
  destruct (collect_all clock arrival 0 0 w Hc Hnd Hpresent)
    as (w' & Hrun & Hc' & _).
  { intros Hnil. rewrite Hnil in Hlen. by destruct (DescTxsByGasPrice (pool w)). }
  destruct (collect_sieves clock arrival 0 0 w w' Hc Hnd Hpresent Hrun) as [Ha Hd].
  rewrite Hlen, N.add_0_l in Hrun. rewrite Hrun. simpl.
  exists (releaseLatch w'). split_and!; simpl; try done.
  - by apply Consistent_releaseLatch.
  - rewrite Ha. apply filter_ext_in. intros tx Htx%Hasc.
    rewrite (unstuck_of_snapshot w rpc pending queued arrival tx Hc Harr Htx).
    by destruct (Status (classify (mem w) rpc pending queued tx)).
  - rewrite Hd. apply filter_ext_in. intros tx Htx%Hdesc.
    rewrite (unstuck_of_snapshot w rpc pending queued arrival tx Hc Harr Htx).
    by destruct (Status (classify (mem w) rpc pending queued tx)).
Qed.

(** X11.  A prune run to its end on a consistent, non-empty pool leaves
    in both sorted lists exactly the transactions it classified STUCK,
    in the order they had before, and [Count()] has dropped by the number
    classified UNSTUCK. *)
Theorem X11_prune_keeps_the_stuck_in_order
    (deliver : ∀ A : Type, list A → list A) (clock : nat → Time)
    (rpc : common.Address → option N) (pending queued : Upstream) (w : World) :
  (∀ A (l : list A), deliver A l ≡ₚ l) →
  Consistent w →
  DescTxsByGasPrice (pool w) ≠ [] →
  let status tx := Status (classify (mem w) rpc pending queued tx) in
  ∃ w', pruneBody deliver clock rpc pending queued w = Some w' ∧
    elems (DescListTxs w') = filter (λ tx, status tx = STUCK) (elems (DescListTxs w)) ∧
    elems (AscListTxs w') = filter (λ tx, status tx = STUCK) (elems (AscListTxs w)) ∧
    Count w
      = Count w'
        + N.of_nat (length (filter (λ tx, status tx = UNSTUCK) (elems (AscListTxs w)))).
Proof.
  intros Hperm Hc Hne status.
  destruct (pruneBody_sieves deliver clock rpc pending queued w Hperm Hc Hne)
    as (w' & Hrun & _ & _ & Ha & Hd).
  exists w'. unfold DescListTxs, AscListTxs. rewrite !handleList_elems.
  split_and!; try done.
  unfold Count, handleCount, TxList.len. rewrite Ha.
  rewrite <-(filter_app_complement (λ tx, status tx = STUCK) (AscTxsByGasPrice (pool w)))
    at 1.
  rewrite length_app, Nat2N.inj_add. f_equal. f_equal. f_equal.
  apply list_filter_iff. intros tx. subst status. simpl.
  by destruct (Status (classify (mem w) rpc pending queued tx)).
Qed.

Lemma X11_prune_keeps_the_stuck_in_order_witness :
  let status tx :=
    Status (classify (mem Sample.mixed) Sample.noRPC Sample.upPending Sample.upQueued tx) in
  ∃ w', pruneBody Sample.lifo Sample.noon Sample.noRPC Sample.upPending Sample.upQueued
          Sample.mixed = Some w' ∧
    elems (DescListTxs w')
      = filter (λ tx, status tx = STUCK) (elems (DescListTxs Sample.mixed)) ∧
    elems (AscListTxs w')
      = filter (λ tx, status tx = STUCK) (elems (AscListTxs Sample.mixed)) ∧
    Count Sample.mixed
      = Count w'
        + N.of_nat (length (filter (λ tx, status tx = UNSTUCK)
                              (elems (AscListTxs Sample.mixed)))).
Proof.
  apply (X11_prune_keeps_the_stuck_in_order Sample.lifo Sample.noon Sample.noRPC
           Sample.upPending Sample.upQueued Sample.mixed).
  - intros A l. apply reverse_Permutation.
  - apply Consistent_mixed.
  - vm_compute. discriminate.
Defined.

(** X12.  The latch through one prune: on a consistent, non-empty pool
    with no prune in flight the request is answered SCHEDULED; once the
    goroutine has run to its end the next prune request is not answered
    PRUNING: it is answered EMPTY when every transaction was classified
    UNSTUCK, and SCHEDULED when one was left. *)
Theorem X12_latch_is_free_after_a_prune
    (deliver : ∀ A : Type, list A → list A) (clock : nat → Time)
    (rpc : common.Address → option N) (pending queued : Upstream) (w : World) :
  (∀ A (l : list A), deliver A l ≡ₚ l) →
  Consistent w →
  IsPruning (pool w) = false →
  DescTxsByGasPrice (pool w) ≠ [] →
  let status tx := Status (classify (mem w) rpc pending queued tx) in
  (RemoveUnstuck w).2 = SCHEDULED ∧
  ∃ w', pruneBody deliver clock rpc pending queued (RemoveUnstuck w).1 = Some w' ∧
    ((RemoveUnstuck w').2 = EMPTY ↔ ∀ tx, stored (pool w) tx → status tx = UNSTUCK) ∧
    ((RemoveUnstuck w').2 = SCHEDULED ↔ ∃ tx, stored (pool w) tx ∧ status tx = STUCK) ∧
    (RemoveUnstuck w').2 ≠ PRUNING.
Proof.
  intros Hperm Hc Hp Hne status.
  pose proof (Consistent_SameRecords w Hc) as (_ & Hdesc & _).
  assert (Hreq : RemoveUnstuck w
            = ({| mem := mem w; pool := setPruning (pool w) true |}, SCHEDULED)).
  { unfold RemoveUnstuck, handlePrune, TxList.len. rewrite Hp.
    by destruct (DescTxsByGasPrice (pool w)). }
  rewrite Hreq. simpl. split; [done|].
  destruct (pruneBody_sieves deliver clock rpc pending queued
              {| mem := mem w; pool := setPruning (pool w) true |} Hperm)
    as (w' & Hrun & _ & Hlatch & _ & Hd); [|done|].
  { by eapply Consistent_same_store; [..|exact Hc]. }
  simpl in Hd. exists w'. split; [done|].
  unfold RemoveUnstuck, handlePrune, TxList.len. rewrite Hlatch, Hd.
  set (left := filter (λ tx, Status (classify (mem w) rpc pending queued tx) = STUCK)
                 (DescTxsByGasPrice (pool w))).
  assert (Hleft : ∀ tx, tx ∈ left ↔ stored (pool w) tx ∧ status tx = STUCK).
  { intros tx. unfold left. by rewrite list_elem_of_filter, Hdesc, (comm and). }
  destruct left as [|tx0 rest] eqn:El; simpl.
  - split_and!; try done.
    + split; [|done]. intros _ tx Htx.
      destruct (status tx) eqn:Hs; [|done].
      exfalso. eapply not_elem_of_nil, Hleft. done.
    + split; [done|]. intros (tx & Htx & Hs).
      exfalso. eapply not_elem_of_nil, Hleft. done.
  - split_and!; try done.
    + split; [done|]. intros Hall.
      destruct (proj1 (Hleft tx0)) as [Hst Hs]; [by left|].
      specialize (Hall tx0 Hst). congruence.
    + split; [|done]. intros _. exists tx0. apply Hleft. by left.
Qed.

Lemma X12_latch_is_free_after_a_prune_witness :
  let status tx :=
    Status (classify (mem Sample.mixed) Sample.noRPC Sample.upPending Sample.upQueued tx) in
  (RemoveUnstuck Sample.mixed).2 = SCHEDULED ∧
  ∃ w', pruneBody Sample.lifo Sample.noon Sample.noRPC Sample.upPending Sample.upQueued
          (RemoveUnstuck Sample.mixed).1 = Some w' ∧
    ((RemoveUnstuck w').2 = EMPTY ↔
       ∀ tx, stored (pool Sample.mixed) tx → status tx = UNSTUCK) ∧
    ((RemoveUnstuck w').2 = SCHEDULED ↔
       ∃ tx, stored (pool Sample.mixed) tx ∧ status tx = STUCK) ∧
    (RemoveUnstuck w').2 ≠ PRUNING.
Proof.
  apply (X12_latch_is_free_after_a_prune Sample.lifo Sample.noon Sample.noRPC
           Sample.upPending Sample.upQueued Sample.mixed).
  - intros A l. apply reverse_Permutation.
  - apply Consistent_mixed.
  - vm_compute. reflexivity.
  - vm_compute. discriminate.
Defined.

(** ** What the collaborators are handed *)

Lemma serve_logs now req w :
  PendingPool (pool (serve now req w).1) = PendingPool (pool w) ∧
  ∃ more, PubSub (pool (serve now req w).1) = PubSub (pool w) ++ more ∧
          Forall AsPublished more.
Proof.
  destruct req as [tx|h|pending queued|h|h| |o]; simpl;
    try (split; [done|]; exists []; by rewrite app_nil_r).
  - unfold handleAdd.
    destruct (Transactions (pool w) !! hashOf (mem w) tx); simpl.
    + split; [done|]. exists []. by rewrite app_nil_r.
    + split; [done|]. eexists. split; [done|]. repeat constructor.
      unfold AsPublished. simpl. eexists. split; [done|]. by rewrite fn_lookup_alter.
  - unfold txRemover. destruct (Transactions (pool w) !! h) as [tx|]; simpl.
    + split; [done|]. eexists. split; [done|]. repeat constructor.
      unfold AsPublished. simpl. by rewrite lookup_delete_eq.
    + split; [done|]. exists []. by rewrite app_nil_r.
  - unfold handlePrune. destruct (IsPruning (pool w)); simpl.
    + split; [done|]. exists []. by rewrite app_nil_r.
    + destruct (TxList.len (DescTxsByGasPrice (pool w)) =? 0)%nat; simpl;
        (split; [done|]; exists []; by rewrite app_nil_r).
Qed.

Lemma collectOne_logs now v received txCount w :
  (∃ handed, PendingPool (pool (collectOne now v received txCount w).1.1)
               = PendingPool (pool w) ++ handed) ∧
  ∃ more, PubSub (pool (collectOne now v received txCount w).1.1)
            = PubSub (pool w) ++ more ∧
          Forall AsPublished more.
Proof.
  unfold collectOne. destruct (Status v).
  - simpl. split; exists []; by rewrite app_nil_r.
  - unfold txRemover. destruct (Transactions (pool w) !! StatusHash v) as [tx|]; simpl.
    + split; [by eexists|]. eexists. split; [done|]. repeat constructor.
      unfold AsPublished. simpl. by rewrite lookup_delete_eq.
    + split; exists []; by rewrite app_nil_r.
Qed.

Lemma step_logs s s' :
  step s s' →
  PendingPool (pool (world s)) `prefix_of` PendingPool (pool (world s')) ∧
  ∃ more, PubSub (pool (world s')) = PubSub (pool (world s)) ++ more ∧
          Forall (λ p, topic p = EntryTopic → AsPublished p) more.
Proof.
  intros Hstep. destruct Hstep as
    [s m' Hid|s now req|s js1 js2 pending queued rpc Hj
    |s js1 js2 c1 v c2 received txCount now Hj Hnone
    |s js1 js2 c1 v c2 received txCount tx Hj Hv Hh
    |s js1 js2 txHash tx commChan received txCount now Hj
    |s js1 js2 txHash tx commChan received txCount Hj
    |s js1 js2 txHash tx commChan received txCount Hj]; simpl;
    try (split; [done|]; exists []; by rewrite app_nil_r).
  - destruct (serve_logs now req (world s)) as (-> & more & -> & Hmore).
    split; [done|]. exists more. split; [done|].
    eapply list.Forall_impl; [exact Hmore|]. by intros p Hp _.
  - pose proof (collectOne_logs now v received txCount (world s))
      as (Hp & more & Hmore & Hall).
    assert (Hentry : Forall (λ p, topic p = EntryTopic → AsPublished p) more).
    { eapply list.Forall_impl; [exact Hall|]. by intros p Hp' _. }
    destruct (collectOne now v received txCount (world s)) as [[w1 r1] [|]];
      simpl in *; (split; [done|]; by exists more).
  - destruct (txCount <=? received + 1); simpl;
      (split; [by eexists|]; eexists; split; [done|]; by repeat constructor).
Qed.

(** With the goroutine through its write section before the owning task
    serves the add of the record at pointer 6, the exit publication of
    the goroutine, made for the record at pointer 1, carries the record
    at pointer 6, which stays stored. *)
Example reread_publishes_the_new_record :
  reachable rereadPublished ∧
  length (PubSub (pool (world rereadPublished))) = 3%nat ∧
  PubSub (pool (world rereadPublished)) !! 2%nat
    = Some {| topic := ExitTopic;
              payload := Some (markQueued 140 (heapAgain 6%positive)) |} ∧
  PendingPool (pool (world rereadPublished)) = [1%positive] ∧
  Get (world rereadPublished) 0xaa = Some 6%positive.
Proof.
  split_and!; try (vm_compute; reflexivity).
  exists heapAgain.
  eapply rtc_l; [apply (step_serve _ 100%Z (AddRequest 1))|].
  eapply rtc_l;
    [apply (step_serve _ 120%Z (RemoveTxsFromQueuedPool Sample.upQueued ∅))|].
  eapply rtc_l;
    [by apply (step_snapshot _ [] [] Sample.upQueued ∅ Sample.noRPC)|].
  eapply rtc_l;
    [by apply (step_lookup _ [] [] [] {| StatusHash := 0xaa; Status := UNSTUCK |}
                 [] 0 1 1%positive)|].
  eapply rtc_l; [by apply (step_stamp _ [] [] 0xaa 1%positive [] 0 1 125%Z)|].
  eapply rtc_l; [by apply (step_detach _ [] [] 0xaa 1%positive [] 0 1)|].
  eapply rtc_l; [apply (step_serve _ 140%Z (AddRequest 6))|].
  eapply rtc_l; [by apply (step_publish _ [] [] 0xaa 1%positive [] 0 1)|].
  apply rtc_refl.
Qed.

(** X13.  Whatever the pool went through, prune goroutines overtaken by
    served requests included, every publication it made on the entry
    topic carries a record labelled queued.  Both logs only grow: a step
    appends to what the publisher and the pending pool were handed.
    Serving a request hands nothing to the pending pool, and what it
    publishes is an entry publication with a record labelled queued or
    an exit publication carrying nil. *)
Theorem X13_what_the_collaborators_receive (s : System) :
  reachable s →
  Forall (λ p, topic p = EntryTopic → AsPublished p) (PubSub (pool (world s))) ∧
  (∀ s', step s s' →
     PubSub (pool (world s)) `prefix_of` PubSub (pool (world s')) ∧
     PendingPool (pool (world s)) `prefix_of` PendingPool (pool (world s'))) ∧
  ∀ now req,
    PendingPool (pool (serve now req (world s)).1) = PendingPool (pool (world s)) ∧
    ∃ more,
      PubSub (pool (serve now req (world s)).1) = PubSub (pool (world s)) ++ more ∧
      Forall AsPublished more.
Proof.
  intros [m Hrun]. split_and!.
  - assert (Hinit : Forall (λ p, topic p = EntryTopic → AsPublished p)
                      (PubSub (pool (world (initial m)))))
      by constructor.
    induction Hrun as [s|s1 s2 s3 Hstep _ IH]; [done|].
    apply IH. destruct (step_logs s1 s2 Hstep) as (_ & more & -> & Hmore).
    by apply Forall_app.
  - intros s' Hstep. destruct (step_logs s s' Hstep) as (Hp & more & Hmore & _).
    split; [by exists more|done].
  - intros now req. apply serve_logs.
Qed.

Lemma X13_what_the_collaborators_receive_witness :
  Forall (λ p, topic p = EntryTopic → AsPublished p)
    (PubSub (pool (world overtaken))) ∧
  (∀ s', step overtaken s' →
     PubSub (pool (world overtaken)) `prefix_of` PubSub (pool (world s')) ∧
     PendingPool (pool (world overtaken)) `prefix_of` PendingPool (pool (world s'))) ∧
  ∀ now req,
    PendingPool (pool (serve now req (world overtaken)).1)
      = PendingPool (pool (world overtaken)) ∧
    ∃ more,
      PubSub (pool (serve now req (world overtaken)).1)
        = PubSub (pool (world overtaken)) ++ more ∧
      Forall AsPublished more.
Proof.
  apply (X13_what_the_collaborators_receive overtaken).
  exists heapAgain.
  eapply rtc_l; [apply (step_serve _ 100%Z (AddRequest 1))|].
  eapply rtc_l;
    [apply (step_serve _ 120%Z (RemoveTxsFromQueuedPool Sample.upQueued ∅))|].
  eapply rtc_l;
    [by apply (step_snapshot _ [] [] Sample.upQueued ∅ Sample.noRPC)|].
  eapply rtc_l;
    [by apply (step_lookup _ [] [] [] {| StatusHash := 0xaa; Status := UNSTUCK |}
                 [] 0 1 1%positive)|].
  eapply rtc_l; [apply (step_serve _ 130%Z (RemovedUnstuckTx 0xaa))|].
  eapply rtc_l; [apply (step_serve _ 140%Z (AddRequest 6))|].
  apply rtc_refl.
Defined.

(** ** The polling driver *)

(** X14.  [PollTxPoolContent] calls the node again and again, sleeping
    the polling period after each call that succeeded; at the first call
    that fails it closes the supervisor's channel, once, and returns
    without another call; while no call has failed it neither returns
    nor closes the channel. *)
Theorem X14_polling_stops_at_the_first_failure (period : Z) (calls : list bool) :
  ∃ n : nat,
    take n calls = replicate n true ∧
    (PollTxPoolContent period calls).1
      = mjoin (replicate n [Called; Slept period])
          ++ (if (PollTxPoolContent period calls).2 then [Called; Closed] else []) ∧
    ((PollTxPoolContent period calls).2 = true ↔ calls !! n = Some false) ∧
    ((PollTxPoolContent period calls).2 = false ↔ n = length calls) ∧
    ((PollTxPoolContent period calls).2 = true ↔ false ∈ calls) ∧
    (Closed ∈ (PollTxPoolContent period calls).1
       ↔ (PollTxPoolContent period calls).2 = true).
Proof.
  induction calls as [|ok rest IH].
  - exists 0%nat. simpl. split_and!; try done.
    + split; [done|]. by intros ?%elem_of_nil.
    + split; [by intros ?%elem_of_nil|done].
  - destruct ok.
    + destruct IH as (n & Ht & He & Hf & Hl & Hin & Hc).
      exists (S n). simpl.
      destruct (PollTxPoolContent period rest) as [events returned]; simpl in *.
      split_and!.
      * by rewrite Ht.
      * by rewrite He.
      * done.
      * rewrite Hl. split; lia.
      * rewrite Hin, elem_of_cons. split; [by right|]. by intros [?|?].
      * rewrite <-Hc, !elem_of_cons. split; [|by right; right].
        by intros [?|[?|?]].
    + exists 0%nat. simpl. split_and!; try done.
      * split; [|done]. intros _. by left.
      * split; [done|]. intros _. right. by left.
Qed.

Example polling_sample :
  PollTxPoolContent 500 [true; true; false; true]
    = ([Called; Slept 500; Called; Slept 500; Called; Closed], true).
Proof. reflexivity. Qed.
